(** * ezWorker: the pooled task executor

    A shallow embedding of package [executor] (constructor [New], the
    dispatch loop [Run], [Teardown]) and of the two capability interfaces of
    package [worker] ([Worker], [Factory]).  Every goroutine body is a
    computation in a state monad over the executor struct; goroutines are
    composed by an executable interleaving semantics. *)

From Stdlib Require Import String List NArith Arith Lia Bool.
From Stdlib Require Import Permutation.
From Equations Require Import Equations.
Import ListNotations.

Set Implicit Arguments.
Set Warnings "-register-all,-notation-for-abbreviation".

(** ** Go values shared by all packages *)

(** A non-nil error value.  [fmt_Errorf format wrapped] is the value built by
    [fmt.Errorf(format, wrapped)] for a format with one [%w] verb: it keeps
    the operand it wraps, and that operand may be nil. *)
Inductive err : Type :=
| errors_New (text : string)
| fmt_Errorf (format : string) (wrapped : option err).

(** Go's [error] interface value; [None] is [nil]. *)
Definition error : Type := option err.

Definition Errorf (format : string) (wrapped : error) : error :=
  Some (fmt_Errorf format wrapped).

(** What a chain of [errors.Unwrap] reaches from [e], [e] included. *)
Fixpoint carries (target : err) (e : err) : Prop :=
  e = target \/
  match e with
  | errors_New _ => False
  | fmt_Errorf _ None => False
  | fmt_Errorf _ (Some inner) => carries target inner
  end.

(** [context.Context] as the executor uses it.  [Err()] is nil while [Done()]
    is open and non-nil once it is closed, so one field gives both. *)
Record Context : Type := { ctx_Err : error }.

Definition Done_closed (ctx : Context) : bool :=
  match ctx_Err ctx with Some _ => true | None => false end.

(** A channel seen from its receiving end: the values sent and not yet
    received, oldest first, and whether [close] was called. *)
Record chan (T : Type) : Type := { queue : list T; closed : bool }.

(** [v, ok := <-c].  [None]: the receive blocks (open and empty).  On a
    closed and drained channel the receive yields the zero value and
    [ok = false]; a value that was sent comes with [ok = true]. *)
Definition receive {T : Type} (zero : T) (c : chan T) : option ((T * bool) * chan T) :=
  match queue c with
  | v :: rest => Some ((v, true), {| queue := rest; closed := closed c |})
  | [] => if closed c then Some ((zero, false), c) else None
  end.

(** ** Package [pool] (github.com/pgvanniekerk/ezPool) *)

Module pool.

(** Modelled from the spec: the fixed-size pool of the external module
    ezPool, which is imported by the executor and is not part of this
    repository.  The spec gives it as a fixed-capacity container with
    [Get] (blocks if empty), [Put] (may fail), [Avail] (count of available
    items) and [Teardown] (may fail). *)
Record Pool (T : Type) : Type :=
  mkPool { items : list T; capacity : N; torn_down : bool }.

(** Modelled from the spec: when [Put] and [Teardown] fail is left open by
    the spec, so the failures of their own that an implementation reports
    are an oracle on the pool's state. *)
Class Faults (T : Type) : Type := {
  Put_fault : Pool T -> T -> error;
  Teardown_fault : Pool T -> error
}.

Section Ops.
Context {T : Type} {faults : Faults T}.

(** Modelled from the spec: [pool.NewFixedSizedPool], an empty pool of the
    capacity asked for. *)
Definition NewFixedSizedPool (size : N) : Pool T :=
  mkPool [] size false.

(** Modelled from the spec: [Pool.Avail], the count of available items. *)
Definition Avail (p : Pool T) : N := N.of_nat (length (items p)).

(** Modelled from the spec: [Pool.Get], which takes an available item out of
    the pool.  [None]: the pool is empty and the caller blocks.  The spec does
    not say what [Get] does on a pool that was torn down; here it goes on as
    before. *)
Definition Get (p : Pool T) : option (T * Pool T) :=
  match items p with
  | [] => None
  | t :: rest => Some (t, mkPool rest (capacity p) (torn_down p))
  end.

(** Modelled from the spec: [Pool.Put], which makes an item available again.
    It fails when the implementation reports a failure and when the pool
    already holds as many items as its capacity. *)
Definition Put (t : T) (p : Pool T) : error * Pool T :=
  match Put_fault p t with
  | Some e => (Some e, p)
  | None =>
      if (Avail p <? capacity p)%N
      then (None, mkPool (items p ++ [t]) (capacity p) (torn_down p))
      else (Some (errors_New "pool is full"%string), p)
  end.

(** Modelled from the spec: [Pool.Teardown], which releases the pool's own
    resources unless the implementation reports a failure. *)
Definition Teardown (p : Pool T) : error * Pool T :=
  match Teardown_fault p with
  | Some e => (Some e, p)
  | None => (None, mkPool (items p) (capacity p) true)
  end.

End Ops.
End pool.

(** ** Package [worker] *)

(** [worker.Worker[I, O]]: [Execute(ctx, input) (O, error)]. *)
Class Worker (W I O : Type) : Type := {
  Execute : W -> Context -> I -> O * error
}.

(** [worker.Factory[I, O]].  A factory is a stateful object: [FState] is its
    state, and each method returns the state it leaves behind. *)
Class Factory (W : Type) : Type := {
  FState : Type;
  Create : FState -> (W * error) * FState;
  Destroy : W -> FState -> error * FState
}.

(** Every Go type has a zero value; the executor meets the one of [I] when it
    receives from a closed input channel. *)
Class Zero (T : Type) : Type := { zero : T }.

(** ** The monad of goroutine bodies *)

(** How a piece of sequential code ends: it yields a value, it panics with a
    value, or it blocks for good as far as this goroutine alone can tell. *)
Inductive Outcome (A : Type) : Type :=
| Return (a : A)
| Panic (v : error)
| Blocked.
Arguments Panic {A} v.
Arguments Blocked {A}.

Definition M (S A : Type) : Type := S -> Outcome A * S.

Definition ret {S A : Type} (a : A) : M S A := fun s => (Return a, s).

Definition bind {S A B : Type} (c : M S A) (k : A -> M S B) : M S B :=
  fun s =>
    match c s with
    | (Return a, s') => k a s'
    | (Panic v, s') => (Panic v, s')
    | (Blocked, s') => (Blocked, s')
    end.

Definition panic {S A : Type} (v : error) : M S A := fun s => (Panic v, s).

Definition get_state {S : Type} : M S S := fun s => (Return s, s).

(** [defer d; body]: the deferred call runs when the body returns and also
    when it panics; a panic of the body goes on after the deferred call
    unless that call panics itself. *)
Definition defer {S : Type} (d : M S unit) (body : M S unit) : M S unit :=
  fun s =>
    match body s with
    | (Return _, s') => d s'
    | (Panic v, s') =>
        match d s' with
        | (Return _, s'') => (Panic v, s'')
        | other => other
        end
    | (Blocked, s') => (Blocked, s')
    end.

Declare Scope go_scope.
Delimit Scope go_scope with go.
Notation "x <- c ;; k" := (bind c (fun x => k))
  (at level 61, c at next level, right associativity) : go_scope.
Notation "' pat <- c ;; k" := (bind c (fun x => match x with pat => k end))
  (at level 61, pat pattern, c at next level, right associativity) : go_scope.
Notation "c ;; k" := (bind c (fun _ => k))
  (at level 61, right associativity) : go_scope.
Open Scope go_scope.

(** Case analysis that keeps the equation (for definitions by [with]). *)
Definition inspect {A : Type} (a : A) : {b : A | a = b} := exist _ a eq_refl.

(** [uint32(n)] *)
Definition uint32 (n : N) : N := (n mod 2 ^ 32)%N.

(** ** Sample collaborators

    Small implementations of the interfaces, to run the executor on. *)

Module Demo.

(** Workers are numbers.  A worker rejects the task 0 and adds its own number
    to any other task. *)
Definition adder : Worker nat nat nat :=
  {| Execute := fun w _ msg =>
       if Nat.eqb msg 0
       then (0, Some (errors_New "empty task"%string))
       else (w + msg, None) |}.

Definition zero_nat : Zero nat := {| zero := 0 |}.

(** A factory whose state is the number of the next worker. *)
Definition steady : Factory nat :=
  {| FState := nat;
     Create := fun next => ((next, None), S next);
     Destroy := fun _ next => (None, next) |}.

(** The same factory, but the call that would create worker 1 fails. *)
Definition fails_on_second : Factory nat :=
  {| FState := nat;
     Create := fun next =>
       if Nat.eqb next 1
       then ((0, Some (errors_New "out of workers"%string)), S next)
       else ((next, None), S next);
     Destroy := fun _ next => (None, next) |}.

(** A pool that reports no failure of its own. *)
Definition sound : pool.Faults nat :=
  {| pool.Put_fault := fun _ _ => None;
     pool.Teardown_fault := fun _ => None |}.

(** A pool that takes nothing back once it is torn down. *)
Definition shuts : pool.Faults nat :=
  {| pool.Put_fault := fun p _ =>
       if pool.torn_down p
       then Some (errors_New "pool is torn down"%string)
       else None;
     pool.Teardown_fault := fun _ => None |}.

(** The same pool, which moreover cannot be torn down twice. *)
Definition shuts_once : pool.Faults nat :=
  {| pool.Put_fault := fun p _ =>
       if pool.torn_down p
       then Some (errors_New "pool is torn down"%string)
       else None;
     pool.Teardown_fault := fun p =>
       if pool.torn_down p
       then Some (errors_New "pool is already torn down"%string)
       else None |}.

Definition background : Context := {| ctx_Err := None |}.


Definition open_empty : chan nat := {| queue := []; closed := false |}.

Definition closed_empty : chan nat := {| queue := []; closed := true |}.


(** A factory whose workers cannot be destroyed. *)
Definition cannot_destroy : Factory nat :=
  {| FState := nat;
     Create := fun next => ((next, None), S next);
     Destroy := fun _ next => (Some (errors_New "worker is busy"%string), next) |}.

(** A pool that does not take worker 1. *)
Definition refuses_one : pool.Faults nat :=
  {| pool.Put_fault := fun _ w =>
       if Nat.eqb w 1
       then Some (errors_New "worker refused"%string)
       else None;
     pool.Teardown_fault := fun _ => None |}.

(** A pool that cannot be torn down. *)
Definition stays : pool.Faults nat :=
  {| pool.Put_fault := fun _ _ => None;
     pool.Teardown_fault := fun _ =>
       Some (errors_New "pool is in use"%string) |}.

End Demo.

(** ** Package [executor] *)

Section Executor.
Context {W I O : Type} {zeroI : Zero I}.
Context {worker : Worker W I O} {factory : Factory W} {faults : pool.Faults W}.

(** What the goroutines of an executor do to the objects it holds, in the
    order in which they do it. *)
Inductive Event : Type :=
| ev_Create (wrkr : W) (err : error)
| ev_Destroy (wrkr : W) (err : error)
| ev_Get (wrkr : W)
| ev_Put (wrkr : W) (err : error)
| ev_PoolTeardown (err : error)
| ev_Execute (wrkr : W) (msg : I) (output : O) (err : error)
| ev_send_output (output : O)
| ev_send_error (err : error)
| ev_receive (msg : I) (ok : bool)
| ev_go (msg : I) (wrkr : W).

(** Where a task goroutine (lines 94-125) stands: inside [Execute] and the
    send that follows it, or about to run its deferred function. *)
Inductive Stage : Type := executing | deferred.

Record Task : Type := { task_msg : I; task_worker : W; task_stage : Stage }.

(** The struct [executor] (lines 27-52).  Each field holds the state of the
    object the Go field refers to; a write-only channel is the list of the
    values sent on it so far.  The last two fields are not Go fields: they are
    the runtime's list of live task goroutines and the history of calls. *)
Record executor : Type := {
  inputChannel : chan I;
  outputChannel : list O;
  errorChannel : list error;
  workerPool : pool.Pool W;
  cancelContext : Context;
  workerFactory : FState;
  goroutines : list Task;
  history : list Event
}.

Definition log (ev : Event) (e : executor) : executor :=
  {| inputChannel := inputChannel e; outputChannel := outputChannel e;
     errorChannel := errorChannel e; workerPool := workerPool e;
     cancelContext := cancelContext e; workerFactory := workerFactory e;
     goroutines := goroutines e; history := history e ++ [ev] |}.

Definition set_workerPool (p : pool.Pool W) (e : executor) : executor :=
  {| inputChannel := inputChannel e; outputChannel := outputChannel e;
     errorChannel := errorChannel e; workerPool := p;
     cancelContext := cancelContext e; workerFactory := workerFactory e;
     goroutines := goroutines e; history := history e |}.

Definition set_workerFactory (f : FState) (e : executor) : executor :=
  {| inputChannel := inputChannel e; outputChannel := outputChannel e;
     errorChannel := errorChannel e; workerPool := workerPool e;
     cancelContext := cancelContext e; workerFactory := f;
     goroutines := goroutines e; history := history e |}.

Definition set_inputChannel (c : chan I) (e : executor) : executor :=
  {| inputChannel := c; outputChannel := outputChannel e;
     errorChannel := errorChannel e; workerPool := workerPool e;
     cancelContext := cancelContext e; workerFactory := workerFactory e;
     goroutines := goroutines e; history := history e |}.

Definition set_outputChannel (c : list O) (e : executor) : executor :=
  {| inputChannel := inputChannel e; outputChannel := c;
     errorChannel := errorChannel e; workerPool := workerPool e;
     cancelContext := cancelContext e; workerFactory := workerFactory e;
     goroutines := goroutines e; history := history e |}.

Definition set_errorChannel (c : list error) (e : executor) : executor :=
  {| inputChannel := inputChannel e; outputChannel := outputChannel e;
     errorChannel := c; workerPool := workerPool e;
     cancelContext := cancelContext e; workerFactory := workerFactory e;
     goroutines := goroutines e; history := history e |}.

Definition set_goroutines (g : list Task) (e : executor) : executor :=
  {| inputChannel := inputChannel e; outputChannel := outputChannel e;
     errorChannel := errorChannel e; workerPool := workerPool e;
     cancelContext := cancelContext e; workerFactory := workerFactory e;
     goroutines := g; history := history e |}.

(** Code of the executor: a computation on the struct. *)
Local Notation Ex := (M executor).

(** *** The calls the executor makes *)

(** [e.workerFactory.Create()] *)
Definition workerFactory_Create : Ex (W * error) :=
  fun e =>
    let '((wrkr, err), f) := Create (workerFactory e) in
    (Return (wrkr, err), log (ev_Create wrkr err) (set_workerFactory f e)).

(** [e.workerFactory.Destroy(wrkr)] *)
Definition workerFactory_Destroy (wrkr : W) : Ex error :=
  fun e =>
    let '(err, f) := Destroy wrkr (workerFactory e) in
    (Return err, log (ev_Destroy wrkr err) (set_workerFactory f e)).

(** [e.workerPool.Put(wrkr)] *)
Definition workerPool_Put (wrkr : W) : Ex error :=
  fun e =>
    let '(err, p) := pool.Put wrkr (workerPool e) in
    (Return err, log (ev_Put wrkr err) (set_workerPool p e)).

(** [e.workerPool.Get()] *)
Definition workerPool_Get : Ex W :=
  fun e =>
    match pool.Get (workerPool e) with
    | Some (wrkr, p) => (Return wrkr, log (ev_Get wrkr) (set_workerPool p e))
    | None => (Blocked, e)
    end.

(** [e.workerPool.Teardown()] *)
Definition workerPool_Teardown : Ex error :=
  fun e =>
    let '(err, p) := pool.Teardown (workerPool e) in
    (Return err, log (ev_PoolTeardown err) (set_workerPool p e)).

(** [e.outputChannel <- output].  The consumer of the stream is taken to be
    receiving, so the send goes through. *)
Definition send_output (output : O) : Ex unit :=
  fun e => (Return tt,
            log (ev_send_output output)
                (set_outputChannel (outputChannel e ++ [output]) e)).

(** [e.errorChannel <- err], under the same reading. *)
Definition send_error (err : error) : Ex unit :=
  fun e => (Return tt,
            log (ev_send_error err)
                (set_errorChannel (errorChannel e ++ [err]) e)).

(** [msg, closed := <-e.inputChannel] *)
Definition receive_input : Ex (I * bool) :=
  fun e =>
    match receive zero (inputChannel e) with
    | Some ((msg, ok), c) =>
        (Return (msg, ok), log (ev_receive msg ok) (set_inputChannel c e))
    | None => (Blocked, e)
    end.

(** [go func(msg, w, e) {...}(msg, wrkr, e)]: a new task goroutine, about to
    call [Execute]. *)
Definition go (msg : I) (wrkr : W) : Ex unit :=
  fun e => (Return tt,
            log (ev_go msg wrkr)
                (set_goroutines
                   (goroutines e ++
                    [{| task_msg := msg; task_worker := wrkr;
                        task_stage := executing |}]) e)).


(** *** [New] (executor/new.go, lines 13-49) *)

(** The loop of lines 33-46, with [remaining] iterations to go: [i] counts
    from 0 up to [int(workerCount)] and the body does not read it.  The loop
    yields the error of the [return nil, err] that left it, or nil when it ran
    to its end. *)
Fixpoint populate (remaining : nat) : Ex error :=
  match remaining with
  | 0 => ret None
  | S remaining' =>
      ' (wrkr, err) <- workerFactory_Create ;;
      match err with
      | Some _ => ret err
      | None =>
          err <- workerPool_Put wrkr ;;
          match err with
          | Some _ => ret err
          | None => populate remaining'
          end
      end
  end.

(** [workerCount] is a [uint16].  The result pairs Go's two results (a nil
    [Executor] is [None]); the struct next to it is [e] as the call left it,
    whichever way it ended, with the factory's state and the calls made. *)
Definition New (inputChannel : chan I) (outputChannel : list O)
    (errorChannel : list error) (cancelContext : Context)
    (workerFactory : FState) (workerCount : N)
  : Outcome (option executor * error) * executor :=
  let e :=
    {| inputChannel := inputChannel;
       outputChannel := outputChannel;
       errorChannel := errorChannel;
       workerPool := pool.NewFixedSizedPool (uint32 workerCount);
       cancelContext := cancelContext;
       workerFactory := workerFactory;
       goroutines := [];
       history := [] |} in
  (err <- populate (N.to_nat workerCount) ;;
   match err with
   | Some _ => ret (None, err)
   | None => e' <- get_state ;; ret (Some e', None)
   end) e.

(** *** [Teardown] (lines 133-156) *)

(** One pass of the loop body, lines 140-146: the error it returns with, or
    nil when the loop goes on. *)
Definition destroy_next : Ex error :=
  wrkr <- workerPool_Get ;;
  err <- workerFactory_Destroy wrkr ;;
  match err with
  | Some _ => ret (Errorf "failed to destroy worker: %w" err)
  | None => ret None
  end.

(** The loop of line 137, [for i := uint32(0); i < e.workerPool.Avail(); i++],
    entered with counter [i].  The bound is read again before every pass. *)
Equations? destroy_loop (i : N) (e : executor) : Outcome error * executor
  by wf (length (pool.items (workerPool e))) lt :=
destroy_loop i e with inspect (i <? pool.Avail (workerPool e))%N => {
  | exist _ false _ => (Return None, e)
  | exist _ true _ with inspect (destroy_next e) => {
      | exist _ (Return None, e') Hpass => destroy_loop (uint32 (i + 1)) e'
      | exist _ (Return (Some err), e') _ => (Return (Some err), e')
      | exist _ (Panic v, e') _ => (Panic v, e')
      | exist _ (Blocked, e') _ => (Blocked, e')
    }
  }.
Proof.
  unfold destroy_next, bind, workerPool_Get, workerFactory_Destroy, pool.Get in Hpass.
  destruct (pool.items (workerPool e)) as [|w rest] eqn:Hitems; [discriminate|].
  cbn in Hpass.
  destruct (Destroy w (workerFactory e)) as [[errv|] f]; cbn in Hpass;
    inversion Hpass; subst; cbn; lia.
Qed.

Definition Teardown : Ex error :=
  err <- destroy_loop 0 ;;
  match err with
  | Some _ => ret err
  | None =>
      err <- workerPool_Teardown ;;
      match err with
      | Some _ => ret (Errorf "failed to teardown worker pool: %w" err)
      | None => ret None
      end
  end.

(** *** The task goroutine (lines 94-125) *)

(** The deferred function, lines 98-110.  The result of [Teardown] is bound
    to [putErr], and [putErr] is the operand of both [panic]s. *)
Definition return_worker (w : W) : Ex unit :=
  err <- workerPool_Put w ;;
  match err with
  | Some _ =>
      putErr <- Teardown ;;
      match putErr with
      | Some _ => panic (Errorf "failed to teardown executor: %w" putErr)
      | None => panic (Errorf "failed to put worker back into pool: %w" putErr)
      end
  | None => ret tt
  end.

(** [w.Execute(e.cancelContext, msg)] *)
Definition worker_Execute (w : W) (msg : I) : Ex (O * error) :=
  fun e =>
    let '(output, err) := Execute w (cancelContext e) msg in
    (Return (output, err), log (ev_Execute w msg output err) e).

(** Lines 118-123. *)
Definition execute_task (msg : I) (w : W) : Ex unit :=
  ' (output, err) <- worker_Execute w msg ;;
  match err with
  | Some _ => send_error err
  | None => send_output output
  end.

(** The whole goroutine body. *)
Definition task (msg : I) (w : W) : Ex unit :=
  defer (return_worker w) (execute_task msg w).

(** *** The dispatch loop of [Run] (lines 64-127) *)

(** The case of the [select] that the runtime picks. *)
Inductive select_case : Type := case_Done | case_input.

(** [<-e.cancelContext.Done()]: blocks until the context is cancelled. *)
Definition receive_Done : Ex unit :=
  fun e => if Done_closed (cancelContext e) then (Return tt, e) else (Blocked, e).

(** [e.cancelContext.Err()] *)
Definition cancelContext_Err : Ex error :=
  fun e => (Return (ctx_Err (cancelContext e)), e).

(** [err := e.Teardown(); if err != nil { panic(...) }], lines 70-73 and
    82-85. *)
Definition Teardown_or_panic : Ex unit :=
  err <- Teardown ;;
  match err with
  | Some _ => panic (Errorf "failed to teardown executor: %w" err)
  | None => ret tt
  end.

(** One pass through the [select], lines 65-87, up to the point where a worker
    is needed.  [None]: the goroutine has returned.  [Some msg]: control
    reaches line 90 with [msg]. *)
Definition select (c : select_case) : Ex (option I) :=
  match c with
  | case_Done =>
      receive_Done ;;
      cancelErr <- cancelContext_Err ;;
      send_error cancelErr ;;
      Teardown_or_panic ;;
      ret None
  | case_input =>
      ' (msg, closed) <- receive_input ;;
      if (closed : bool)
      then Teardown_or_panic ;; ret None
      else ret (Some msg)
  end.

(** Lines 90-125: borrow a worker, start the task goroutine. *)
Definition dispatch (msg : I) : Ex unit :=
  wrkr <- workerPool_Get ;;
  go msg wrkr.

Inductive control : Type := loop_return | loop_continue.

(** One iteration of the [for] of line 64. *)
Definition iteration (c : select_case) : Ex control :=
  next <- select c ;;
  match next with
  | None => ret loop_return
  | Some msg => dispatch msg ;; ret loop_continue
  end.

(** The loop, driven by the cases the runtime picks one iteration after the
    other; [loop_continue] when the cases given are used up and the loop is
    back at its [select]. *)
Fixpoint Run_loop (picks : list select_case) : Ex control :=
  match picks with
  | [] => ret loop_continue
  | c :: rest =>
      ctl <- iteration c ;;
      match ctl with
      | loop_return => ret loop_return
      | loop_continue => Run_loop rest
      end
  end.

(** *** The running program: goroutines interleaved *)

(** Where the goroutine started by [Run] (line 60) stands: not started,
    waiting at the [select], holding a message at line 90, or gone. *)
Inductive Dispatcher : Type :=
| created
| at_select
| at_Get (msg : I)
| returned.

(** The process: the struct and all it refers to, the dispatch goroutine, and
    the value of a panic no goroutine recovered from, after which the process
    is dead. *)
Record System : Type := {
  exec : executor;
  dispatcher : Dispatcher;
  crashed : option error
}.

(** What can happen next.  A goroutine runs from one point where it may have
    to wait to the next: the dispatcher from the [select] to line 90 and from
    [Get] back to the [select]; a task goroutine through [Execute] and its
    send, then through its deferred function.  The caller of the package may
    start the loop, call [Teardown], send on the input channel, close it, or
    cancel the context.  A call of [Teardown] runs as one step. *)
Inductive Action : Type :=
| act_Run
| act_select (c : select_case)
| act_dispatch
| act_task (k : nat)
| act_Teardown
| env_send (msg : I)
| env_close
| env_cancel (reason : err).

Definition set_cancelContext (ctx : Context) (e : executor) : executor :=
  {| inputChannel := inputChannel e; outputChannel := outputChannel e;
     errorChannel := errorChannel e; workerPool := workerPool e;
     cancelContext := ctx; workerFactory := workerFactory e;
     goroutines := goroutines e; history := history e |}.

Fixpoint remove_nth {A : Type} (k : nat) (l : list A) : list A :=
  match l, k with
  | [], _ => []
  | _ :: rest, 0 => rest
  | a :: rest, S k' => a :: remove_nth k' rest
  end.

Fixpoint replace_nth {A : Type} (k : nat) (a : A) (l : list A) : list A :=
  match l, k with
  | [], _ => []
  | _ :: rest, 0 => a :: rest
  | b :: rest, S k' => b :: replace_nth k' a rest
  end.

(** The state after a piece of code of one goroutine ran in [s]: none if the
    code blocks (the action is not enabled), the dead process if it panics. *)
Definition after {A : Type} (s : System) (r : Outcome A * executor)
    (k : A -> executor -> System) : option System :=
  match r with
  | (Return a, e') => Some (k a e')
  | (Panic v, e') =>
      Some {| exec := e'; dispatcher := dispatcher s; crashed := Some v |}
  | (Blocked, _) => None
  end.

Definition with_exec (s : System) (e' : executor) : System :=
  {| exec := e'; dispatcher := dispatcher s; crashed := crashed s |}.

Definition with_dispatcher (d : Dispatcher) (e' : executor) : System :=
  {| exec := e'; dispatcher := d; crashed := None |}.

(** [Run] (lines 57-129): it starts the goroutine of the dispatch loop and
    returns.  The model follows one such goroutine, so [Run] is enabled on an
    executor that was not started yet. *)
Definition Run (s : System) : option System :=
  match dispatcher s with
  | created => Some (with_dispatcher at_select (exec s))
  | _ => None
  end.

Definition step_live (a : Action) (s : System) : option System :=
  let e := exec s in
  match a with
  | act_Run => Run s
  | act_select c =>
      match dispatcher s with
      | at_select =>
          after s (select c e)
            (fun next e' =>
               match next with
               | None => with_dispatcher returned e'
               | Some msg => with_dispatcher (at_Get msg) e'
               end)
      | _ => None
      end
  | act_dispatch =>
      match dispatcher s with
      | at_Get msg =>
          after s (dispatch msg e) (fun _ e' => with_dispatcher at_select e')
      | _ => None
      end
  | act_task k =>
      match nth_error (goroutines e) k with
      | Some t =>
          match task_stage t with
          | executing =>
              after s (execute_task (task_msg t) (task_worker t) e)
                (fun _ e' =>
                   with_exec s
                     (set_goroutines
                        (replace_nth k
                           {| task_msg := task_msg t;
                              task_worker := task_worker t;
                              task_stage := deferred |}
                           (goroutines e')) e'))
          | deferred =>
              after s (return_worker (task_worker t) e)
                (fun _ e' =>
                   with_exec s
                     (set_goroutines (remove_nth k (goroutines e')) e'))
          end
      | None => None
      end
  | act_Teardown => after s (Teardown e) (fun _ e' => with_exec s e')
  | env_send msg =>
      if closed (inputChannel e) then None
      else Some (with_exec s
                   (set_inputChannel
                      {| queue := queue (inputChannel e) ++ [msg];
                         closed := false |} e))
  | env_close =>
      if closed (inputChannel e) then None
      else Some (with_exec s
                   (set_inputChannel
                      {| queue := queue (inputChannel e); closed := true |} e))
  | env_cancel reason =>
      match ctx_Err (cancelContext e) with
      | Some _ => None
      | None =>
          Some (with_exec s (set_cancelContext {| ctx_Err := Some reason |} e))
      end
  end.

(** One step; [None] when the action is not enabled.  Nothing runs in a
    process that a panic has killed. *)
Definition step (a : Action) (s : System) : option System :=
  match crashed s with
  | Some _ => None
  | None => step_live a s
  end.

Fixpoint run (acts : list Action) (s : System) : option System :=
  match acts with
  | [] => Some s
  | a :: rest =>
      match step a s with
      | Some s' => run rest s'
      | None => None
      end
  end.

(** The process right after [New] returned [e]. *)
Definition start (e : executor) : System :=
  {| exec := e; dispatcher := created; crashed := None |}.

(** Task goroutines that are inside [Execute] (or its send). *)
Definition executing_now (s : System) : nat :=
  length (filter (fun t => match task_stage t with executing => true | deferred => false end)
            (goroutines (exec s))).

(** Workers out of the pool: one per live task goroutine. *)
Definition borrowed (s : System) : nat := length (goroutines (exec s)).

Definition available (s : System) : nat :=
  length (pool.items (workerPool (exec s))).

(** *** Reading a history *)

Definition is_Destroy (ev : Event) : bool :=
  match ev with ev_Destroy _ _ => true | _ => false end.

Definition is_Create (ev : Event) : bool :=
  match ev with ev_Create _ _ => true | _ => false end.

Definition is_Put (ev : Event) : bool :=
  match ev with ev_Put _ _ => true | _ => false end.

Definition is_Put_failure (ev : Event) : bool :=
  match ev with ev_Put _ (Some _) => true | _ => false end.

Definition is_Get (ev : Event) : bool :=
  match ev with ev_Get _ => true | _ => false end.

Definition is_PoolTeardown (ev : Event) : bool :=
  match ev with ev_PoolTeardown _ => true | _ => false end.

Definition is_receive (ev : Event) : bool :=
  match ev with ev_receive _ _ => true | _ => false end.

Definition is_go (ev : Event) : bool :=
  match ev with ev_go _ _ => true | _ => false end.

(** A Result written to one of the two streams. *)
Definition is_result (ev : Event) : bool :=
  match ev with ev_send_output _ | ev_send_error _ => true | _ => false end.

Definition is_send_output (ev : Event) : bool :=
  match ev with ev_send_output _ => true | _ => false end.

Definition is_send_error (ev : Event) : bool :=
  match ev with ev_send_error _ => true | _ => false end.

Definition count (f : Event -> bool) (h : list Event) : nat :=
  length (filter f h).

(** The workers an [ev_Destroy] names, in order. *)
Definition destroyed (h : list Event) : list W :=
  flat_map (fun ev => match ev with ev_Destroy w _ => [w] | _ => [] end) h.

(** *** What [Teardown] may touch *)

Definition pool_event (ev : Event) : bool :=
  is_Get ev || is_Destroy ev || is_PoolTeardown ev.

Definition reclaims (e e' : executor) : Prop :=
  inputChannel e' = inputChannel e /\
  outputChannel e' = outputChannel e /\
  errorChannel e' = errorChannel e /\
  cancelContext e' = cancelContext e /\
  goroutines e' = goroutines e /\
  pool.capacity (workerPool e') = pool.capacity (workerPool e) /\
  length (pool.items (workerPool e')) <= length (pool.items (workerPool e)) /\
  exists evs, history e' = history e ++ evs /\ Forall (fun ev => pool_event ev = true) evs.


(** The calls of [k] passes of the loop of [Teardown] in which every
    [Destroy] succeeds, on the workers the pool hands out. *)
Definition destroy_calls (ws : list W) : list Event :=
  flat_map (fun w => [ev_Get w; ev_Destroy w None]) ws.

(** How many passes the loop of [Teardown] makes when it is entered with
    counter [i] and [avail] workers in the pool: the counter goes up while the
    bound goes down. *)
Definition passes (i avail : nat) : nat := (avail - i + 1) / 2.

(** *** The admission invariant *)

(** Workers out of the pool and workers in it together never exceed the
    pool's capacity. *)
Definition within_capacity (s : System) : Prop :=
  borrowed s + available s <= N.to_nat (pool.capacity (workerPool (exec s))).

(** A piece of code that starts no goroutine and adds no worker to the pool. *)
Definition conserves (e e' : executor) : Prop :=
  goroutines e' = goroutines e /\
  pool.capacity (workerPool e') = pool.capacity (workerPool e) /\
  length (pool.items (workerPool e')) <= length (pool.items (workerPool e)).

(** The struct that [New] leaves behind on fresh channels. *)
Definition constructed (input : chan I) (ctx : Context) (f : FState)
    (workerCount : N) : executor :=
  snd (New input [] [] ctx f workerCount).

(** The state a schedule leads to (the start state if it cannot be run). *)
Definition reached (acts : list Action) (e : executor) : System :=
  match run acts (start e) with
  | Some s => s
  | None => start e
  end.

(** How many receives on the input channel the history holds. *)
Definition received (s : System) : nat := count is_receive (history (exec s)).

(** How many task goroutines the history saw start. *)
Definition started (s : System) : nat := count is_go (history (exec s)).

(** *** More ways to read a history *)

(** The workers that [Create] returned without an error, in order. *)
Definition workers_created (h : list Event) : list W :=
  flat_map (fun ev => match ev with ev_Create w None => [w] | _ => [] end) h.

(** The workers that the pool took in a [Put], in order. *)
Definition put_back (h : list Event) : list W :=
  flat_map (fun ev => match ev with ev_Put w None => [w] | _ => [] end) h.

(** The workers that [Get] handed out, in order. *)
Definition taken (h : list Event) : list W :=
  flat_map (fun ev => match ev with ev_Get w => [w] | _ => [] end) h.

(** The tasks that [Execute] was called on, in order. *)
Definition executed (h : list Event) : list I :=
  flat_map (fun ev => match ev with ev_Execute _ msg _ _ => [msg] | _ => [] end) h.

(** The outputs of the [Execute] calls that returned no error, in order. *)
Definition outputs (h : list Event) : list O :=
  flat_map
    (fun ev => match ev with ev_Execute _ _ output None => [output] | _ => [] end)
    h.

(** The calls of a populating loop in which nothing fails, on the workers the
    factory returns. *)
Definition populate_calls (ws : list W) : list Event :=
  flat_map (fun w => [ev_Create w None; ev_Put w None]) ws.

(** The workers that task goroutines hold. *)
Definition held (s : System) : list W :=
  map task_worker (goroutines (exec s)).

(** A call on the factory or the pool that a populating loop makes. *)
Definition populating (ev : Event) : bool := is_Create ev || is_Put ev.

(** A call that returned an error. *)
Definition is_failure (ev : Event) : bool :=
  match ev with
  | ev_Create _ (Some _) | ev_Destroy _ (Some _) | ev_Put _ (Some _)
  | ev_PoolTeardown (Some _) | ev_Execute _ _ _ (Some _) => true
  | _ => false
  end.

Definition is_Execute_failure (ev : Event) : bool :=
  match ev with ev_Execute _ _ _ (Some _) => true | _ => false end.

(** A piece of code that runs no task: it calls no [Execute] and sends
    nothing on the output stream. *)
Definition quiet (e e' : executor) : Prop :=
  executed (history e') = executed (history e) /\
  outputs (history e') = outputs (history e) /\
  count is_Execute_failure (history e') = count is_Execute_failure (history e) /\
  outputChannel e' = outputChannel e.

(** A piece of code that takes workers from the front of the pool and hands
    them to [Destroy], and does nothing else to the pool. *)
Definition retires (e e' : executor) : Prop :=
  exists ws,
    pool.items (workerPool e) = ws ++ pool.items (workerPool e') /\
    destroyed (history e') = destroyed (history e) ++ ws.

(** Where the workers are: available in the pool, held by a task goroutine,
    or handed to [Destroy]. *)
Definition whereabouts (s : System) : list W :=
  pool.items (workerPool (exec s)) ++ held s ++ destroyed (history (exec s)).

(** Only the zero value of [I] is on its way to a worker or has been given
    to one. *)
Definition only_zero_tasks (s : System) : Prop :=
  Forall (fun t => task_msg t = zero) (goroutines (exec s)) /\
  Forall (fun msg => msg = zero) (executed (history (exec s))) /\
  (forall msg, dispatcher s = at_Get msg -> msg = zero).


(** The task goroutines the loop starts on the workers [ws] for the zero
    value. *)
Definition zero_tasks (ws : list W) : list Task :=
  map (fun w => {| task_msg := zero; task_worker := w; task_stage := executing |})
      ws.

(** ** Properties *)

Unset Implicit Arguments.

Lemma destroy_loop_eq (i : N) (e : executor) :
  destroy_loop i e =
  if (i <? pool.Avail (workerPool e))%N
  then match destroy_next e with
       | (Return None, e') => destroy_loop (uint32 (i + 1)) e'
       | other => other
       end
  else (Return None, e).
Proof.
  funelim (destroy_loop i e);
    repeat match goal with
           | Hb : (_ <? _)%N = _ |- _ => rewrite Hb
           | Hn : destroy_next _ = _ |- _ => rewrite Hn
           end; reflexivity.
Qed.


Lemma reclaims_refl (e : executor) : reclaims e e.
Proof.
  unfold reclaims. repeat (split; [reflexivity|]).
  exists []. rewrite app_nil_r. split; [reflexivity|constructor].
Qed.

Lemma reclaims_trans (e1 e2 e3 : executor) :
  reclaims e1 e2 -> reclaims e2 e3 -> reclaims e1 e3.
Proof.
  intros (A1 & A2 & A3 & A4 & A5 & A6 & A7 & evs1 & A8 & A9)
         (B1 & B2 & B3 & B4 & B5 & B6 & B7 & evs2 & B8 & B9).
  unfold reclaims.
  repeat (split; [congruence|]). split; [lia|].
  exists (evs1 ++ evs2). split.
  - rewrite B8, A8, app_assoc. reflexivity.
  - apply Forall_app; split; assumption.
Qed.

(** One pass of the loop of [Teardown], spelled out. *)
Lemma destroy_next_inv (e e' : executor) (r : Outcome error) :
  destroy_next e = (r, e') ->
  match pool.items (workerPool e) with
  | [] => r = Blocked /\ e' = e
  | w :: rest =>
      let '(err, f) := Destroy w (workerFactory e) in
      e' = log (ev_Destroy w err)
             (set_workerFactory f
                (log (ev_Get w)
                   (set_workerPool
                      (pool.mkPool rest (pool.capacity (workerPool e))
                         (pool.torn_down (workerPool e))) e))) /\
      r = Return (match err with
                  | Some _ => Errorf "failed to destroy worker: %w" err
                  | None => None
                  end)
  end.
Proof.
  unfold destroy_next, bind, workerPool_Get, workerFactory_Destroy, pool.Get.
  destruct (pool.items (workerPool e)) as [|w rest].
  - intros H; inversion H; auto.
  - cbn. destruct (Destroy w (workerFactory e)) as [[er|] f]; cbn;
      intros H; inversion H; auto.
Qed.

Lemma destroy_next_reclaims (e e' : executor) (r : Outcome error) :
  destroy_next e = (r, e') ->
  (pool.Avail (workerPool e) <> 0%N -> exists er, r = Return er) /\
  reclaims e e' /\
  (r = Return None ->
   S (length (pool.items (workerPool e'))) = length (pool.items (workerPool e))).
Proof.
  intros H. apply destroy_next_inv in H. unfold pool.Avail.
  destruct (pool.items (workerPool e)) as [|w rest] eqn:Hit.
  - destruct H as [-> ->]. split; [intros C; exfalso; apply C; reflexivity|].
    split; [apply reclaims_refl|discriminate].
  - destruct (Destroy w (workerFactory e)) as [er f]. destruct H as [-> ->].
    split; [eauto|]. split.
    + unfold reclaims. cbn. repeat (split; [reflexivity|]). rewrite Hit. cbn.
      split; [lia|].
      exists [ev_Get w; ev_Destroy w er]. rewrite <- app_assoc.
      split; [reflexivity|]. repeat constructor.
    + intros _. cbn. reflexivity.
Qed.

Lemma destroy_loop_reclaims (n : nat) :
  forall i e r e',
    length (pool.items (workerPool e)) = n ->
    destroy_loop i e = (r, e') ->
    (exists er, r = Return er) /\ reclaims e e'.
Proof.
  induction n as [|n IH]; intros i e r e' Hlen Hrun;
    rewrite destroy_loop_eq in Hrun;
    destruct (N.ltb_spec i (pool.Avail (workerPool e))) as [Hlt|Hge].
  - unfold pool.Avail in Hlt. rewrite Hlen in Hlt. lia.
  - inversion Hrun; subst. split; [eauto|apply reclaims_refl].
  - destruct (destroy_next e) as [r1 e1] eqn:Hn.
    destruct (destroy_next_reclaims _ _ _ Hn) as (Hret & Hrec & Hdec).
    destruct Hret as [er ->]; [lia|].
    destruct er as [er|].
    + inversion Hrun; subst. split; [eauto|exact Hrec].
    + specialize (Hdec eq_refl).
      assert (Hlen1 : length (pool.items (workerPool e1)) = n) by lia.
      destruct (IH _ _ _ _ Hlen1 Hrun) as (Hr & Hrec2).
      split; [exact Hr|]. eapply reclaims_trans; eassumption.
  - inversion Hrun; subst. split; [eauto|apply reclaims_refl].
Qed.

(** [Teardown] always returns: it neither blocks nor panics, and it leaves the
    channels, the context and the task goroutines alone. *)
Lemma Teardown_reclaims (e e' : executor) (r : Outcome error) :
  Teardown e = (r, e') -> (exists er, r = Return er) /\ reclaims e e'.
Proof.
  unfold Teardown, bind. intros Hrun.
  destruct (destroy_loop 0 e) as [r1 e1] eqn:Hloop.
  destruct (destroy_loop_reclaims _ _ _ _ _ eq_refl Hloop) as ([er ->] & Hrec).
  destruct er as [er|].
  - inversion Hrun; subst. split; [eauto|exact Hrec].
  - unfold workerPool_Teardown, pool.Teardown in Hrun.
    destruct (pool.Teardown_fault (workerPool e1)) as [te|]; cbn in Hrun;
      inversion Hrun; subst; (split; [eauto|]);
      (eapply reclaims_trans; [exact Hrec|]);
      unfold reclaims; cbn; repeat (split; [reflexivity|]);
      eexists; (split; [reflexivity|repeat constructor]).
Qed.

(** *** Construction *)

(** The calls of the populating loop: none of them is a [Destroy], and a
    failed [Create] is the last of them and decides the result. *)
Lemma populate_trace (n : nat) (e e' : executor) (r : Outcome error) :
  populate n e = (r, e') ->
  exists evs,
    history e' = history e ++ evs /\
    Forall (fun ev => is_Destroy ev = false) evs /\
    (forall w er, In (ev_Create w (Some er)) evs ->
       r = Return (Some er) /\
       exists calls, evs = calls ++ [ev_Create w (Some er)]).
Proof.
  revert e. induction n as [|n IH]; intros e Hrun.
  - inversion Hrun; subst. exists []. rewrite app_nil_r.
    split; [reflexivity|]. split; [constructor|]. intros ? ? [].
  - cbn [populate] in Hrun. unfold bind, workerFactory_Create in Hrun.
    destruct (Create (workerFactory e)) as [[wrkr [er0|]] f] eqn:HC.
    + inversion Hrun; subst. exists [ev_Create wrkr (Some er0)]. cbn.
      split; [reflexivity|]. split; [repeat constructor|].
      intros w er [H|[]]. inversion H; subst. split; [reflexivity|].
      exists []. reflexivity.
    + unfold workerPool_Put in Hrun.
      match type of Hrun with
      | context [pool.Put ?w ?p] =>
          destruct (pool.Put w p) as [[perr|] p'] eqn:HP
      end.
      * inversion Hrun; subst.
        exists [ev_Create wrkr None; ev_Put wrkr (Some perr)]. cbn.
        rewrite <- app_assoc. split; [reflexivity|].
        split; [repeat constructor|].
        intros w er [H|[H|[]]]; discriminate H.
      * destruct (IH _ Hrun) as (evs & Hh & Hd & Hc).
        exists (ev_Create wrkr None :: ev_Put wrkr None :: evs).
        split.
        { rewrite Hh. cbn. rewrite <- !app_assoc. reflexivity. }
        split; [repeat constructor; assumption|].
        intros w er [H|[H|H]]; try discriminate H.
        destruct (Hc w er H) as (Hr & calls & Hcalls). split; [exact Hr|].
        exists (ev_Create wrkr None :: ev_Put wrkr None :: calls).
        rewrite Hcalls. reflexivity.
Qed.

Lemma count_none (f : Event -> bool) (evs : list Event) :
  Forall (fun ev => f ev = false) evs -> count f evs = 0.
Proof.
  unfold count. induction 1 as [|ev evs Hev _ IH]; cbn; [reflexivity|].
  rewrite Hev. exact IH.
Qed.

Lemma count_app (f : Event -> bool) (h1 h2 : list Event) :
  count f (h1 ++ h2) = count f h1 + count f h2.
Proof. unfold count. rewrite filter_app, length_app. reflexivity. Qed.

(** C7.  If a [Create] call made by [New] fails with an error, [New] returns
    that very error and a nil [Executor], and the failed call is the last call
    that [New] makes.  This holds for every worker count and factory, so also
    when the second of three calls fails. *)
Theorem New_Create_failure
    (input : chan I) (output : list O) (errors : list error) (ctx : Context)
    (f : FState) (workerCount : N) (w : W) (er : err) :
  In (ev_Create w (Some er))
     (history (snd (New input output errors ctx f workerCount))) ->
  fst (New input output errors ctx f workerCount) = Return (None, Some er) /\
  exists calls,
    history (snd (New input output errors ctx f workerCount)) =
    calls ++ [ev_Create w (Some er)].
Proof.
  unfold New, bind.
  match goal with
  | |- context [populate ?n ?e0] =>
      destruct (populate n e0) as [r e1] eqn:Hpop
  end.
  destruct (populate_trace _ _ _ _ Hpop) as (evs & Hh & _ & Hc). cbn in Hh.
  intros Hin.
  assert (Hin' : In (ev_Create w (Some er)) evs).
  { rewrite <- Hh. destruct r as [[er'|]| |]; exact Hin. }
  destruct (Hc _ _ Hin') as (-> & calls & ->). cbn.
  split; [reflexivity|]. exists calls. exact Hh.
Qed.

(** C8.  [New] never calls [Factory.Destroy], whatever the factory does and
    however construction ends.  So when a [Create] fails after workers were
    created, [New] returns the error and those workers are left as they are. *)
Theorem New_never_calls_Destroy
    (input : chan I) (output : list O) (errors : list error) (ctx : Context)
    (f : FState) (workerCount : N) :
  count is_Destroy
    (history (snd (New input output errors ctx f workerCount))) = 0 /\
  destroyed (history (snd (New input output errors ctx f workerCount))) = [] /\
  (forall w er,
     In (ev_Create w (Some er))
        (history (snd (New input output errors ctx f workerCount))) ->
     fst (New input output errors ctx f workerCount) = Return (None, Some er)).
Proof.
  unfold New, bind.
  match goal with
  | |- context [populate ?n ?e0] =>
      destruct (populate n e0) as [r e1] eqn:Hpop
  end.
  destruct (populate_trace _ _ _ _ Hpop) as (evs & Hh & Hd & Hc). cbn in Hh.
  assert (Hgoal : count is_Destroy (history e1) = 0 /\
                  destroyed (history e1) = [] /\
                  (forall w er, In (ev_Create w (Some er)) (history e1) ->
                     r = Return (Some er))).
  { rewrite Hh. split; [apply count_none; exact Hd|]. split.
    - clear - Hd. induction Hd as [|ev evs Hev _ IH]; [reflexivity|].
      cbn. destruct ev; try discriminate Hev; exact IH.
    - intros w er Hin. apply (Hc w er Hin). }
  destruct Hgoal as (H1 & H2 & H3).
  destruct r as [[er'|]| |]; cbn [fst snd]; (split; [exact H1|]);
    (split; [exact H2|]); intros w er Hin;
    specialize (H3 w er Hin); inversion H3; reflexivity.
Qed.

(** C10.  With [workerCount = 0], [New] returns a non-nil [Executor] and a nil
    error for every factory; the pool of that executor is empty and has
    capacity 0, and no call was made: the factory is in the state it was
    given in and [Create] was not invoked. *)
Theorem New_zero_workers
    (input : chan I) (output : list O) (errors : list error) (ctx : Context)
    (f : FState) :
  exists e,
    New input output errors ctx f 0 = (Return (Some e, None), e) /\
    workerPool e = pool.NewFixedSizedPool 0 /\
    pool.items (workerPool e) = [] /\
    pool.capacity (workerPool e) = 0%N /\
    workerFactory e = f /\
    history e = [] /\
    count is_Create (history e) = 0.
Proof.
  eexists. split; [reflexivity|]. cbn. repeat split; reflexivity.
Qed.

(** *** Teardown *)

Lemma destroyed_app (h1 h2 : list Event) :
  destroyed (h1 ++ h2) = destroyed h1 ++ destroyed h2.
Proof. unfold destroyed. apply flat_map_app. Qed.

Lemma destroyed_destroy_calls (ws : list W) :
  destroyed (destroy_calls ws) = ws.
Proof.
  induction ws as [|w ws IH]; [reflexivity|]. cbn. rewrite <- IH at 2. reflexivity.
Qed.

(** The loop of [Teardown] when no [Destroy] fails: entered with counter [i]
    on a pool of [n] workers it takes [passes i n] of them, in order, and
    leaves the others in the pool. *)
Lemma destroy_loop_passes (n : nat) :
  forall i e r e',
    length (pool.items (workerPool e)) = n ->
    (N.of_nat n < 2 ^ 32)%N ->
    (forall w f, fst (Destroy w f) = None) ->
    destroy_loop i e = (r, e') ->
    r = Return None /\
    pool.items (workerPool e') =
      skipn (passes (N.to_nat i) n) (pool.items (workerPool e)) /\
    history e' =
      history e ++
      destroy_calls (firstn (passes (N.to_nat i) n) (pool.items (workerPool e))).
Proof.
  induction n as [|n IH]; intros i e r e' Hlen Hbound Hok Hrun;
    rewrite destroy_loop_eq in Hrun;
    destruct (N.ltb_spec i (pool.Avail (workerPool e))) as [Hlt|Hge];
    unfold pool.Avail in *; rewrite Hlen in *.
  - lia.
  - inversion Hrun; subst. unfold passes. cbn. rewrite app_nil_r. auto.
  - destruct (destroy_next e) as [r1 e1] eqn:Hn.
    apply destroy_next_inv in Hn.
    destruct (pool.items (workerPool e)) as [|w rest] eqn:Hit; [discriminate Hlen|].
    pose proof (Hok w (workerFactory e)) as Hw.
    destruct (Destroy w (workerFactory e)) as [er f]. cbn in Hw. subst er.
    destruct Hn as [-> ->].
    assert (Hwrap : uint32 (i + 1) = (i + 1)%N).
    { unfold uint32. apply N.mod_small. lia. }
    rewrite Hwrap in Hrun.
    assert (Hlen1 : length rest = n) by (cbn in Hlen; lia).
    apply IH in Hrun; [|exact Hlen1|lia|exact Hok].
    destruct Hrun as (-> & Hitems & Hhist). cbn in Hitems, Hhist.
    assert (Hp : passes (N.to_nat i) (S n) = S (passes (N.to_nat (i + 1)) n)).
    { unfold passes.
      destruct (Nat.eq_dec (N.to_nat i) n) as [Heq|Hne].
      - replace (S n - N.to_nat i + 1) with 2 by lia.
        replace (n - N.to_nat (i + 1) + 1) with 1 by lia. reflexivity.
      - replace (S n - N.to_nat i + 1)
          with (n - N.to_nat (i + 1) + 1 + 1 * 2) by lia.
        rewrite Nat.div_add by lia. lia. }
    rewrite Hp. cbn. split; [reflexivity|]. split; [exact Hitems|].
    rewrite Hhist, <- !app_assoc. reflexivity.
  - inversion Hrun; subst. unfold passes.
    replace (S n - N.to_nat i) with 0 by lia. cbn. rewrite app_nil_r. auto.
Qed.

(** The loop of [Teardown] never calls the pool's own [Teardown], and a failed
    [Destroy] is its last call and decides its result. *)
Lemma destroy_loop_trace (n : nat) :
  forall i e r e',
    length (pool.items (workerPool e)) = n ->
    destroy_loop i e = (r, e') ->
    exists evs,
      history e' = history e ++ evs /\
      Forall (fun ev => is_PoolTeardown ev = false) evs /\
      pool.torn_down (workerPool e') = pool.torn_down (workerPool e) /\
      (forall w er, In (ev_Destroy w (Some er)) evs ->
         r = Return (Errorf "failed to destroy worker: %w" (Some er)) /\
         exists calls, evs = calls ++ [ev_Destroy w (Some er)]).
Proof.
  induction n as [|n IH]; intros i e r e' Hlen Hrun;
    rewrite destroy_loop_eq in Hrun;
    destruct (N.ltb_spec i (pool.Avail (workerPool e))) as [Hlt|Hge];
    unfold pool.Avail in *; rewrite Hlen in *.
  - lia.
  - inversion Hrun; subst. exists []. rewrite app_nil_r.
    split; [reflexivity|]. split; [constructor|]. split; [reflexivity|].
    intros ? ? [].
  - destruct (destroy_next e) as [r1 e1] eqn:Hn.
    apply destroy_next_inv in Hn.
    destruct (pool.items (workerPool e)) as [|w rest] eqn:Hit; [discriminate Hlen|].
    destruct (Destroy w (workerFactory e)) as [[er|] f]; destruct Hn as [-> ->].
    + inversion Hrun; subst. exists [ev_Get w; ev_Destroy w (Some er)]. cbn.
      rewrite <- app_assoc. split; [reflexivity|].
      split; [repeat constructor|]. split; [reflexivity|].
      intros w' er' [H|[H|[]]]; [discriminate H|]. inversion H; subst.
      split; [reflexivity|]. exists [ev_Get w']. reflexivity.
    + assert (Hlen1 : length rest = n) by (cbn in Hlen; lia).
      apply IH in Hrun; [|exact Hlen1].
      destruct Hrun as (evs & Hh & Hnt & Htorn & Hfail). cbn in Hh, Htorn.
      exists (ev_Get w :: ev_Destroy w None :: evs).
      split; [rewrite Hh, <- !app_assoc; reflexivity|].
      split; [repeat constructor; exact Hnt|]. split; [exact Htorn|].
      intros w' er' [H|[H|H]]; try discriminate H.
      destruct (Hfail _ _ H) as (-> & calls & ->). split; [reflexivity|].
      exists (ev_Get w :: ev_Destroy w None :: calls). reflexivity.
  - inversion Hrun; subst. exists []. rewrite app_nil_r.
    split; [reflexivity|]. split; [constructor|]. split; [reflexivity|].
    intros ? ? [].
Qed.

(** X9.  A [Destroy] that fails is the last thing [Teardown] does: [Teardown]
    returns an error wrapping that failure, and the pool's own [Teardown] is
    not called. *)
Lemma Teardown_stops_at_failed_Destroy (e : executor) (w : W) (er : err) :
  (exists evs,
     history (snd (Teardown e)) = history e ++ evs /\
     In (ev_Destroy w (Some er)) evs) ->
  fst (Teardown e) = Return (Errorf "failed to destroy worker: %w" (Some er)) /\
  pool.torn_down (workerPool (snd (Teardown e))) =
    pool.torn_down (workerPool e) /\
  exists calls,
    history (snd (Teardown e)) = history e ++ calls ++ [ev_Destroy w (Some er)] /\
    count is_PoolTeardown (calls ++ [ev_Destroy w (Some er)]) = 0.
Proof.
  unfold Teardown, bind.
  destruct (destroy_loop 0 e) as [r1 e1] eqn:Hloop.
  destruct (destroy_loop_trace _ _ _ _ _ eq_refl Hloop)
    as (evs1 & Hh & Hnt & Htorn & Hfail).
  intros (evs & Hevs & Hin).
  assert (Hin1 : In (ev_Destroy w (Some er)) evs1).
  { destruct r1 as [[er1|]| |]; cbn in Hevs;
      try (rewrite Hh in Hevs; apply app_inv_head in Hevs; subst evs; exact Hin).
    unfold workerPool_Teardown in Hevs.
    destruct (pool.Teardown (workerPool e1)) as [[te|] p]; cbn in Hevs;
      rewrite Hh, <- app_assoc in Hevs; apply app_inv_head in Hevs; subst evs;
      apply in_app_or in Hin; destruct Hin as [Hin|[Hin|[]]];
      solve [exact Hin | discriminate Hin]. }
  destruct (Hfail _ _ Hin1) as (-> & calls & ->). cbn.
  split; [reflexivity|]. split; [exact Htorn|].
  exists calls. split; [exact Hh|]. apply count_none. exact Hnt.
Qed.

(** X8.  What [Teardown] does when no [Destroy] fails: of [A] available workers it
    destroys the first [(A + 1) / 2] and leaves the others in the pool, whose
    own [Teardown] it then calls. *)
Lemma Teardown_takes_half (e : executor) :
  (N.of_nat (length (pool.items (workerPool e))) < 2 ^ 32)%N ->
  (forall w f, fst (Destroy w f) = None) ->
  let A := length (pool.items (workerPool e)) in
  let e' := snd (Teardown e) in
  pool.items (workerPool e') = skipn ((A + 1) / 2) (pool.items (workerPool e)) /\
  destroyed (history e') =
    destroyed (history e) ++ firstn ((A + 1) / 2) (pool.items (workerPool e)) /\
  exists perr,
    history e' =
      history e ++
      destroy_calls (firstn ((A + 1) / 2) (pool.items (workerPool e))) ++
      [ev_PoolTeardown perr].
Proof.
  intros Hbound Hok A e'. subst e'. unfold Teardown, bind.
  destruct (destroy_loop 0 e) as [r1 e1] eqn:Hloop.
  destruct (destroy_loop_passes _ _ _ _ _ eq_refl Hbound Hok Hloop)
    as (-> & Hitems & Hhist).
  unfold passes in Hitems, Hhist. cbn [N.to_nat] in Hitems, Hhist.
  rewrite Nat.sub_0_r in Hitems, Hhist. fold A in Hitems, Hhist.
  unfold workerPool_Teardown, pool.Teardown.
  destruct (pool.Teardown_fault (workerPool e1)) as [te|]; cbn;
    (split; [exact Hitems|]);
    rewrite Hhist, <- app_assoc;
    (split; [|eexists; reflexivity]);
    rewrite !destroyed_app, destroyed_destroy_calls; cbn;
    rewrite app_nil_r; reflexivity.
Qed.

(** *** The task goroutine *)

Lemma pool_event_count (f : Event -> bool) (evs : list Event) :
  (forall ev, pool_event ev = true -> f ev = false) ->
  Forall (fun ev => pool_event ev = true) evs -> count f evs = 0.
Proof.
  intros Hf Hevs. apply count_none.
  induction Hevs; constructor; auto.
Qed.

(** [Execute] and the send after it, spelled out: one call, one send. *)
Lemma execute_task_eq (msg : I) (w : W) (e : executor) :
  execute_task msg w e =
  (Return tt,
   let e1 := log (ev_Execute w msg (fst (Execute w (cancelContext e) msg))
                    (snd (Execute w (cancelContext e) msg))) e in
   match snd (Execute w (cancelContext e) msg) with
   | Some er =>
       log (ev_send_error (Some er))
         (set_errorChannel (errorChannel e ++ [Some er]) e1)
   | None =>
       log (ev_send_output (fst (Execute w (cancelContext e) msg)))
         (set_outputChannel
            (outputChannel e ++ [fst (Execute w (cancelContext e) msg)]) e1)
   end).
Proof.
  unfold execute_task, bind, worker_Execute.
  destruct (Execute w (cancelContext e) msg) as [output [er|]]; reflexivity.
Qed.

(** The deferred function: one [Put], and nothing but what [Teardown] does
    after it.  It returns when the pool takes the worker and panics when it
    does not. *)
Lemma return_worker_trace (w : W) (e e' : executor) (r : Outcome unit) :
  return_worker w e = (r, e') ->
  outputChannel e' = outputChannel e /\
  errorChannel e' = errorChannel e /\
  inputChannel e' = inputChannel e /\
  goroutines e' = goroutines e /\
  pool.capacity (workerPool e') = pool.capacity (workerPool e) /\
  exists rest,
    history e' = history e ++ ev_Put w (fst (pool.Put w (workerPool e))) :: rest /\
    Forall (fun ev => pool_event ev = true) rest /\
    match fst (pool.Put w (workerPool e)) with
    | None =>
        r = Return tt /\ rest = [] /\
        pool.items (workerPool e') = pool.items (workerPool e) ++ [w]
    | Some _ =>
        (exists v, r = Panic v) /\
        length (pool.items (workerPool e')) <= length (pool.items (workerPool e))
    end.
Proof.
  unfold return_worker, bind, workerPool_Put.
  destruct (pool.Put w (workerPool e)) as [[perr|] p] eqn:HP; cbn [fst].
  - match goal with
    | |- context [Teardown ?e1] => destruct (Teardown e1) as [r1 e2] eqn:HT
    end.
    destruct (Teardown_reclaims _ _ _ HT)
      as ([terr ->] & T1 & T2 & T3 & T4 & T5 & T6 & T7 & evs & T8 & T9).
    cbn in T1, T2, T3, T4, T5, T6, T7, T8.
    assert (Hp : p = workerPool e).
    { unfold pool.Put in HP.
      destruct (pool.Put_fault (workerPool e) w); [inversion HP; reflexivity|].
      destruct (pool.Avail (workerPool e) <? pool.capacity (workerPool e))%N;
        inversion HP; reflexivity. }
    subst p.
    assert (Hall : outputChannel e2 = outputChannel e /\
                   errorChannel e2 = errorChannel e /\
                   inputChannel e2 = inputChannel e /\
                   goroutines e2 = goroutines e /\
                   pool.capacity (workerPool e2) = pool.capacity (workerPool e) /\
                   exists rest,
                     history e2 = history e ++ ev_Put w (Some perr) :: rest /\
                     Forall (fun ev => pool_event ev = true) rest /\
                     length (pool.items (workerPool e2)) <=
                       length (pool.items (workerPool e))).
    { repeat (split; [assumption|]). exists evs.
      rewrite T8, <- app_assoc. auto. }
    destruct Hall as (H1 & H2 & H3 & H4 & H5 & rest & H6 & H7 & H8).
    destruct terr as [terr|]; intros Hrun; inversion Hrun; subst;
      repeat (split; [assumption|]); exists rest; eauto 6.
  - intros Hrun; inversion Hrun; subst; cbn.
    assert (Hp : pool.items p = pool.items (workerPool e) ++ [w] /\
                 pool.capacity p = pool.capacity (workerPool e)).
    { unfold pool.Put in HP.
      destruct (pool.Put_fault (workerPool e) w); [discriminate HP|].
      destruct (pool.Avail (workerPool e) <? pool.capacity (workerPool e))%N;
        inversion HP; auto. }
    destruct Hp as [Hitems Hcap].
    repeat (split; [auto|]). exists []. auto.
Qed.

Lemma task_eq (msg : I) (w : W) (e : executor) :
  task msg w e = return_worker w (snd (execute_task msg w e)).
Proof. unfold task, defer. rewrite execute_task_eq. reflexivity. Qed.

(** C4.  A task goroutine calls [Execute] once, then writes exactly one
    Result (a value on the output stream or an error on the error stream),
    then calls [Pool.Put] on its worker exactly once; whatever else it does
    comes after that [Put] and is neither a Result nor a [Put].  When the pool
    takes the worker back, the goroutine returns and the worker is in the
    pool. *)
Theorem task_one_result_then_one_Put (msg : I) (w : W) (e : executor) :
  exists call result rest,
    history (snd (task msg w e)) =
      history e ++
      call :: result :: ev_Put w (fst (pool.Put w (workerPool e))) :: rest /\
    call = ev_Execute w msg (fst (Execute w (cancelContext e) msg))
             (snd (Execute w (cancelContext e) msg)) /\
    is_result result = true /\
    count is_result
      (call :: result :: ev_Put w (fst (pool.Put w (workerPool e))) :: rest) = 1 /\
    count is_Put
      (call :: result :: ev_Put w (fst (pool.Put w (workerPool e))) :: rest) = 1 /\
    length (outputChannel (snd (task msg w e))) +
    length (errorChannel (snd (task msg w e))) =
      S (length (outputChannel e) + length (errorChannel e)) /\
    (fst (pool.Put w (workerPool e)) = None ->
     fst (task msg w e) = Return tt /\
     pool.items (workerPool (snd (task msg w e))) =
       pool.items (workerPool e) ++ [w]).
Proof.
  rewrite task_eq, execute_task_eq. cbn [snd].
  destruct (Execute w (cancelContext e) msg) as [output [er|]] eqn:HE; cbn [fst snd];
    match goal with
    | |- context [return_worker w ?e1] =>
        destruct (return_worker w e1) as [r e'] eqn:Hret
    end;
    apply return_worker_trace in Hret;
    destruct Hret as (H1 & H2 & _ & _ & _ & rest & Hh & Hrest & Hput);
    cbn in H1, H2, Hh, Hput; cbn [fst snd];
    eexists; eexists; exists rest;
    (split; [rewrite Hh, <- !app_assoc; reflexivity|]);
    (split; [reflexivity|]); (split; [reflexivity|]);
    (split; [change (S (count is_result rest) = 1);
             rewrite (pool_event_count is_result rest); [reflexivity| |exact Hrest];
             intros []; cbn; congruence|]);
    (split; [change (S (count is_Put rest) = 1);
             rewrite (pool_event_count is_Put rest); [reflexivity| |exact Hrest];
             intros []; cbn; congruence|]);
    (split; [rewrite H1, H2, length_app; cbn; lia|]);
    intros Hnone; rewrite Hnone in Hput; destruct Hput as (-> & _ & ->);
    split; reflexivity.
Qed.

(** C6.  When [Execute] returns an error, that error is what the task
    goroutine sends, on the error stream; the output stream gets nothing; and
    [Pool.Put] is called on the worker after the send.  When the pool takes
    the worker, the goroutine returns and the worker is back among the
    available ones. *)
Theorem task_error_goes_to_error_stream
    (msg : I) (w : W) (e : executor) (output : O) (er : err) :
  Execute w (cancelContext e) msg = (output, Some er) ->
  errorChannel (snd (task msg w e)) = errorChannel e ++ [Some er] /\
  outputChannel (snd (task msg w e)) = outputChannel e /\
  exists rest,
    history (snd (task msg w e)) =
      history e ++
      ev_Execute w msg output (Some er) :: ev_send_error (Some er) ::
      ev_Put w (fst (pool.Put w (workerPool e))) :: rest /\
    count is_send_output
      (ev_Execute w msg output (Some er) :: ev_send_error (Some er) ::
       ev_Put w (fst (pool.Put w (workerPool e))) :: rest) = 0 /\
    (fst (pool.Put w (workerPool e)) = None ->
     fst (task msg w e) = Return tt /\
     pool.items (workerPool (snd (task msg w e))) =
       pool.items (workerPool e) ++ [w]).
Proof.
  intros HE. rewrite task_eq, execute_task_eq, HE. cbn [fst snd].
  match goal with
  | |- context [return_worker w ?e1] =>
      destruct (return_worker w e1) as [r e'] eqn:Hret
  end.
  apply return_worker_trace in Hret.
  destruct Hret as (H1 & H2 & _ & _ & _ & rest & Hh & Hrest & Hput).
  cbn in H1, H2, Hh, Hput. cbn [fst snd].
  split; [exact H2|]. split; [exact H1|]. exists rest.
  split; [rewrite Hh, <- !app_assoc; reflexivity|].
  split.
  - change (count is_send_output rest = 0).
    apply pool_event_count; [|exact Hrest]. intros []; cbn; congruence.
  - intros Hnone. rewrite Hnone in Hput. destruct Hput as (-> & _ & ->).
    split; reflexivity.
Qed.

Lemma Put_failure_keeps_pool (w : W) (p p' : pool.Pool W) (perr : err) :
  pool.Put w p = (Some perr, p') -> p' = p.
Proof.
  unfold pool.Put.
  destruct (pool.Put_fault p w); [intros H; inversion H; reflexivity|].
  destruct (pool.Avail p <? pool.capacity p)%N;
    intros H; inversion H; reflexivity.
Qed.

(** What the deferred function panics with when [Put] fails: the value is
    built from the result of [Teardown] alone.  After a [Teardown] that
    succeeded, the operand of [%w] is nil, whatever [Put] returned. *)
Lemma return_worker_panic_value (w : W) (e : executor) (perr : err) :
  fst (pool.Put w (workerPool e)) = Some perr ->
  exists terr e2,
    Teardown (log (ev_Put w (Some perr)) (set_workerPool (workerPool e) e)) =
      (Return terr, e2) /\
    return_worker w e =
      (Panic (match terr with
              | Some _ => Errorf "failed to teardown executor: %w" terr
              | None => Errorf "failed to put worker back into pool: %w" None
              end), e2).
Proof.
  intros HP. unfold return_worker, bind, workerPool_Put.
  destruct (pool.Put w (workerPool e)) as [perr' p] eqn:HPut.
  cbn in HP. subst perr'. rewrite (Put_failure_keeps_pool _ _ _ _ HPut).
  match goal with
  | |- context [Teardown ?e1] => destruct (Teardown e1) as [r1 e2] eqn:HT
  end.
  destruct (Teardown_reclaims _ _ _ HT) as ([terr ->] & _).
  exists terr, e2. split; [reflexivity|]. destruct terr; reflexivity.
Qed.

(** C3, amended.  When [Put] fails in the deferred function, [Teardown] is
    run next and the goroutine then panics, always; when that [Teardown] fails
    too, the panic carries the error of [Teardown]. *)
Theorem return_worker_failure_is_fatal (w : W) (e : executor) (perr : err) :
  fst (pool.Put w (workerPool e)) = Some perr ->
  exists terr e1 e2 v,
    workerPool_Put w e = (Return (Some perr), e1) /\
    history e1 = history e ++ [ev_Put w (Some perr)] /\
    Teardown e1 = (Return terr, e2) /\
    return_worker w e = (Panic (Some v), e2) /\
    (forall te, terr = Some te ->
       v = fmt_Errorf "failed to teardown executor: %w" (Some te) /\
       carries te v).
Proof.
  intros HP.
  destruct (return_worker_panic_value w e perr HP) as (terr & e2 & HT & Hret).
  assert (HPut : workerPool_Put w e =
                 (Return (Some perr),
                  log (ev_Put w (Some perr)) (set_workerPool (workerPool e) e))).
  { unfold workerPool_Put.
    destruct (pool.Put w (workerPool e)) as [perr' p] eqn:HPut.
    cbn in HP. subst perr'. rewrite (Put_failure_keeps_pool _ _ _ _ HPut).
    reflexivity. }
  destruct terr as [te|].
  - exists (Some te),
      (log (ev_Put w (Some perr)) (set_workerPool (workerPool e) e)), e2,
      (fmt_Errorf "failed to teardown executor: %w" (Some te)).
    split; [exact HPut|]. split; [reflexivity|]. split; [exact HT|].
    split; [exact Hret|]. intros te' Hte. injection Hte as <-.
    split; [reflexivity|]. cbn. right. destruct te; left; reflexivity.
  - exists None,
      (log (ev_Put w (Some perr)) (set_workerPool (workerPool e) e)), e2,
      (fmt_Errorf "failed to put worker back into pool: %w" None).
    split; [exact HPut|]. split; [reflexivity|]. split; [exact HT|].
    split; [exact Hret|]. intros te Hte. discriminate Hte.
Qed.

(** *** The dispatch loop *)

(** A receive on a closed and drained input channel does not make the loop
    tear down: control goes on to line 90 with the zero value as the task. *)
Lemma select_on_closed_input (e : executor) :
  queue (inputChannel e) = [] ->
  closed (inputChannel e) = true ->
  select case_input e =
    (Return (Some zero),
     log (ev_receive zero false) (set_inputChannel (inputChannel e) e)) /\
  iteration case_input e =
    (dispatch zero ;; ret loop_continue)
      (log (ev_receive zero false) (set_inputChannel (inputChannel e) e)).
Proof.
  intros Hq Hc.
  assert (Hsel : select case_input e =
                 (Return (Some zero),
                  log (ev_receive zero false)
                    (set_inputChannel (inputChannel e) e))).
  { unfold select, bind, receive_input, receive. rewrite Hq, Hc. reflexivity. }
  split; [exact Hsel|]. unfold iteration. unfold bind at 1. rewrite Hsel.
  reflexivity.
Qed.

(** A task that is received makes the loop tear down and end: no worker is
    borrowed for it and no goroutine is started. *)
Lemma select_on_received_task (e : executor) (msg : I) (rest : list I) :
  queue (inputChannel e) = msg :: rest ->
  exists terr e2,
    Teardown
      (log (ev_receive msg true)
         (set_inputChannel
            {| queue := rest; closed := closed (inputChannel e) |} e)) =
      (Return terr, e2) /\
    iteration case_input e =
      (match terr with
       | Some _ => Panic (Errorf "failed to teardown executor: %w" terr)
       | None => Return loop_return
       end, e2) /\
    goroutines e2 = goroutines e.
Proof.
  intros Hq. unfold iteration, select, bind, receive_input, receive.
  rewrite Hq. unfold Teardown_or_panic, bind.
  match goal with
  | |- context [Teardown ?e1] => destruct (Teardown e1) as [r1 e2] eqn:HT
  end.
  destruct (Teardown_reclaims _ _ _ HT)
    as ([terr ->] & _ & _ & _ & _ & Hg & _).
  exists terr, e2. split; [reflexivity|]. split; [|exact Hg].
  destruct terr; reflexivity.
Qed.


(** *** The running program *)

Lemma reclaims_conserves (e e' : executor) : reclaims e e' -> conserves e e'.
Proof.
  intros (_ & _ & _ & _ & Hg & Hc & Hl & _). repeat split; assumption.
Qed.

Lemma conserves_refl (e : executor) : conserves e e.
Proof. repeat split; reflexivity. Qed.

Lemma conserves_trans (e1 e2 e3 : executor) :
  conserves e1 e2 -> conserves e2 e3 -> conserves e1 e3.
Proof.
  intros (A1 & A2 & A3) (B1 & B2 & B3). repeat split; try congruence; lia.
Qed.

Lemma Teardown_or_panic_conserves (e e' : executor) (r : Outcome unit) :
  Teardown_or_panic e = (r, e') -> conserves e e' /\ r <> Blocked.
Proof.
  unfold Teardown_or_panic, bind. intros Hrun.
  destruct (Teardown e) as [r1 e1] eqn:HT.
  destruct (Teardown_reclaims _ _ _ HT) as ([terr ->] & Hrec).
  apply reclaims_conserves in Hrec.
  destruct terr; inversion Hrun; subst; split; (exact Hrec || discriminate).
Qed.

Lemma select_conserves (c : select_case) (e e' : executor) (r : Outcome (option I)) :
  select c e = (r, e') -> conserves e e'.
Proof.
  destruct c; unfold select, bind.
  - unfold receive_Done.
    destruct (Done_closed (cancelContext e));
      [|intros H; inversion H; apply conserves_refl].
    unfold cancelContext_Err, send_error. cbv beta iota.
    match goal with
    | |- context [Teardown_or_panic ?e1] =>
        destruct (Teardown_or_panic e1) as [r1 e2] eqn:HT
    end.
    apply Teardown_or_panic_conserves in HT. destruct HT as [HT _].
    destruct r1; intros H; inversion H; subst; exact HT.
  - unfold receive_input.
    destruct (receive zero (inputChannel e)) as [[[msg ok] ch]|];
      [|intros H; inversion H; apply conserves_refl].
    destruct ok.
    + unfold bind.
      match goal with
      | |- context [Teardown_or_panic ?e1] =>
          destruct (Teardown_or_panic e1) as [r1 e2] eqn:HT
      end.
      apply Teardown_or_panic_conserves in HT. destruct HT as [HT _].
      destruct r1; intros H; inversion H; subst; exact HT.
    + intros H; inversion H; subst. repeat split; reflexivity.
Qed.

(** [dispatch] moves one worker from the pool to a new task goroutine, or
    blocks and changes nothing when the pool is empty. *)
Lemma dispatch_inv (msg : I) (e e' : executor) (r : Outcome unit) :
  dispatch msg e = (r, e') ->
  match pool.items (workerPool e) with
  | [] => r = Blocked /\ e' = e
  | w :: rest =>
      r = Return tt /\
      pool.items (workerPool e') = rest /\
      pool.capacity (workerPool e') = pool.capacity (workerPool e) /\
      goroutines e' =
        goroutines e ++
        [{| task_msg := msg; task_worker := w; task_stage := executing |}]
  end.
Proof.
  unfold dispatch, bind, workerPool_Get, pool.Get.
  destruct (pool.items (workerPool e)) as [|w rest];
    intros H; inversion H; subst; cbn; auto.
Qed.

Lemma remove_nth_length {A : Type} (k : nat) (l : list A) (a : A) :
  nth_error l k = Some a -> S (length (remove_nth k l)) = length l.
Proof.
  revert k. induction l as [|b l IH]; intros [|k] H; cbn in *;
    try discriminate; [reflexivity|]. rewrite (IH _ H). reflexivity.
Qed.

Lemma replace_nth_length {A : Type} (k : nat) (a : A) (l : list A) :
  length (replace_nth k a l) = length l.
Proof.
  revert k. induction l as [|b l IH]; intros [|k]; cbn; auto.
Qed.

(** Every step keeps the pool's capacity, and keeps borrowed and available
    workers together within it. *)
(** The state a step led to, from the equation that says it did. *)
Ltac stepped :=
  let H := fresh "Hstep" in
  intros H; first [discriminate H | injection H as <-].

Lemma step_within_capacity (a : Action) (s s' : System) :
  step a s = Some s' ->
  within_capacity s ->
  within_capacity s' /\
  pool.capacity (workerPool (exec s')) = pool.capacity (workerPool (exec s)).
Proof.
  unfold step, within_capacity, borrowed, available.
  destruct (crashed s); [discriminate|].
  destruct s as [e d cr]; cbn [exec dispatcher crashed].
  destruct a; cbn [step_live exec dispatcher crashed].
  - unfold Run; cbn. destruct d; try discriminate. stepped; cbn. auto.
  - destruct d; try discriminate.
    destruct (select c e) as [r e1] eqn:Hsel.
    apply select_conserves in Hsel. destruct Hsel as (Hg & Hc & Hl).
    destruct r as [[msg|]| |]; cbn; stepped; cbn;
      rewrite Hg, Hc; intros; split; (lia || reflexivity).
  - destruct d; try discriminate.
    destruct (dispatch msg e) as [r e1] eqn:Hd.
    apply dispatch_inv in Hd.
    destruct (pool.items (workerPool e)) as [|w rest].
    + destruct Hd as [-> ->]. discriminate.
    + destruct Hd as (-> & Hi & Hc & Hg). cbn.
      stepped; cbn. rewrite Hi, Hc, Hg, length_app.
      cbn. intros; split; (lia || reflexivity).
  - destruct (nth_error (goroutines e) k) as [t|] eqn:Hk; [|discriminate].
    destruct (task_stage t).
    + rewrite execute_task_eq. cbn.
      destruct (snd (Execute (task_worker t) (cancelContext e) (task_msg t)));
        stepped; cbn; rewrite replace_nth_length;
        intros; split; (lia || reflexivity).
    + destruct (return_worker (task_worker t) e) as [r e1] eqn:Hret.
      apply return_worker_trace in Hret.
      destruct Hret as (_ & _ & _ & Hg & Hc & rest & _ & _ & Hput).
      destruct (fst (pool.Put (task_worker t) (workerPool e))).
      * destruct Hput as ([v ->] & Hl). cbn.
        stepped; cbn. rewrite Hg, Hc.
        intros; split; (lia || reflexivity).
      * destruct Hput as (-> & _ & Hi). cbn.
        stepped; cbn. rewrite Hg, Hc, Hi, length_app.
        pose proof (remove_nth_length _ _ _ Hk). cbn.
        intros; split; (lia || reflexivity).
  - destruct (Teardown e) as [r e1] eqn:HT.
    destruct (Teardown_reclaims _ _ _ HT) as ([terr ->] & Hrec).
    apply reclaims_conserves in Hrec. destruct Hrec as (Hg & Hc & Hl). cbn.
    stepped; cbn. rewrite Hg, Hc.
    intros; split; (lia || reflexivity).
  - destruct (closed (inputChannel e)); [discriminate|].
    stepped; cbn. auto.
  - destruct (closed (inputChannel e)); [discriminate|].
    stepped; cbn. auto.
  - destruct (ctx_Err (cancelContext e)); [discriminate|].
    stepped; cbn. auto.
Qed.

Lemma run_within_capacity (acts : list Action) :
  forall s s',
    run acts s = Some s' ->
    within_capacity s ->
    within_capacity s' /\
    pool.capacity (workerPool (exec s')) = pool.capacity (workerPool (exec s)).
Proof.
  induction acts as [|a acts IH]; intros s s' Hrun Hinv.
  - inversion Hrun; subst. auto.
  - cbn in Hrun. destruct (step a s) as [s1|] eqn:Hstep; [|discriminate].
    destruct (step_within_capacity _ _ _ Hstep Hinv) as [Hinv1 Hcap1].
    destruct (IH _ _ Hrun Hinv1) as [Hinv' Hcap']. split; [exact Hinv'|].
    congruence.
Qed.

(** The borrowed count goes down in one way only: a task goroutine ran its
    deferred function and the pool took its worker back. *)
Lemma step_returns_worker (a : Action) (s s' : System) :
  step a s = Some s' ->
  borrowed s' < borrowed s ->
  exists k t,
    a = act_task k /\
    nth_error (goroutines (exec s)) k = Some t /\
    task_stage t = deferred /\
    pool.items (workerPool (exec s')) =
      pool.items (workerPool (exec s)) ++ [task_worker t].
Proof.
  unfold step, borrowed.
  destruct (crashed s); [discriminate|].
  destruct s as [e d cr]; cbn [exec dispatcher crashed].
  destruct a; cbn [step_live exec dispatcher crashed].
  - unfold Run; cbn. destruct d; try discriminate. stepped; cbn. lia.
  - destruct d; try discriminate.
    destruct (select c e) as [r e1] eqn:Hsel.
    apply select_conserves in Hsel. destruct Hsel as (Hg & _).
    destruct r as [[msg|]| |]; cbn; stepped; cbn; rewrite Hg; lia.
  - destruct d; try discriminate.
    destruct (dispatch msg e) as [r e1] eqn:Hd.
    apply dispatch_inv in Hd.
    destruct (pool.items (workerPool e)) as [|w rest].
    + destruct Hd as [-> ->]. discriminate.
    + destruct Hd as (-> & _ & _ & Hg). cbn.
      stepped; cbn. rewrite Hg, length_app. cbn. lia.
  - destruct (nth_error (goroutines e) k) as [t|] eqn:Hk; [|discriminate].
    destruct (task_stage t) eqn:Hstage.
    + rewrite execute_task_eq. cbn.
      destruct (snd (Execute (task_worker t) (cancelContext e) (task_msg t)));
        stepped; cbn; rewrite replace_nth_length; lia.
    + destruct (return_worker (task_worker t) e) as [r e1] eqn:Hret.
      apply return_worker_trace in Hret.
      destruct Hret as (_ & _ & _ & Hg & _ & rest & _ & _ & Hput).
      destruct (fst (pool.Put (task_worker t) (workerPool e))).
      * destruct Hput as ([v ->] & _). cbn. stepped; cbn. rewrite Hg. lia.
      * destruct Hput as (-> & _ & Hi). cbn. stepped; cbn. intros _.
        exists k, t. auto.
  - destruct (Teardown e) as [r e1] eqn:HT.
    destruct (Teardown_reclaims _ _ _ HT) as ([terr ->] & Hrec).
    apply reclaims_conserves in Hrec. destruct Hrec as (Hg & _). cbn.
    stepped; cbn. rewrite Hg. lia.
  - destruct (closed (inputChannel e)); [discriminate|]. stepped; cbn. lia.
  - destruct (closed (inputChannel e)); [discriminate|]. stepped; cbn. lia.
  - destruct (ctx_Err (cancelContext e)); [discriminate|]. stepped; cbn. lia.
Qed.

(** When every worker is borrowed the dispatcher cannot start a task. *)
Lemma dispatch_waits_for_a_worker (s : System) :
  within_capacity s ->
  borrowed s = N.to_nat (pool.capacity (workerPool (exec s))) ->
  step act_dispatch s = None.
Proof.
  unfold within_capacity, borrowed, available, step. intros Hinv Hfull.
  destruct (crashed s); [reflexivity|]. cbn [step_live].
  destruct (dispatcher s); try reflexivity.
  destruct (dispatch msg (exec s)) as [r e1] eqn:Hd.
  apply dispatch_inv in Hd.
  destruct (pool.items (workerPool (exec s))) as [|w rest].
  - destruct Hd as [-> ->]. reflexivity.
  - cbn in Hinv. lia.
Qed.

Lemma populate_pool (n : nat) :
  forall e r e',
    populate n e = (r, e') ->
    goroutines e' = goroutines e /\
    pool.capacity (workerPool e') = pool.capacity (workerPool e) /\
    (length (pool.items (workerPool e)) <=
       N.to_nat (pool.capacity (workerPool e)) ->
     length (pool.items (workerPool e')) <=
       N.to_nat (pool.capacity (workerPool e))).
Proof.
  induction n as [|n IH]; intros e r e' Hrun.
  - inversion Hrun; subst. auto.
  - cbn [populate] in Hrun. unfold bind, workerFactory_Create in Hrun.
    destruct (Create (workerFactory e)) as [[wrkr [er0|]] f].
    + inversion Hrun; subst. cbn. auto.
    + unfold workerPool_Put in Hrun. cbn [workerPool set_workerFactory log] in Hrun.
      unfold pool.Put in Hrun.
      destruct (pool.Put_fault (workerPool e) wrkr);
        [inversion Hrun; subst; cbn; auto|].
      destruct (N.ltb_spec (pool.Avail (workerPool e))
                  (pool.capacity (workerPool e))) as [Hlt|Hge];
        [|inversion Hrun; subst; cbn; auto].
      apply IH in Hrun. cbn in Hrun. destruct Hrun as (Hg & Hc & Hl).
      split; [exact Hg|]. split; [exact Hc|]. intros _. apply Hl.
      unfold pool.Avail in Hlt. rewrite length_app. cbn. lia.
Qed.

(** C9.  In every state the program reaches from an executor that [New]
    returned, the task goroutines that are inside [Execute] are at most as
    many as the pool's capacity, because borrowed and available workers
    together are; the capacity is the worker count given to [New].  When as
    many workers are borrowed as the capacity, the dispatcher cannot start
    another task: its [Get] blocks.  The borrowed count goes down only when a
    task goroutine has put its worker back into the pool. *)
Theorem at_most_capacity_executing
    (input : chan I) (output : list O) (errors : list error) (ctx : Context)
    (f : FState) (workerCount : N) (e0 : executor)
    (acts : list Action) (s : System) :
  fst (New input output errors ctx f workerCount) = Return (Some e0, None) ->
  run acts (start e0) = Some s ->
  pool.capacity (workerPool (exec s)) = uint32 workerCount /\
  executing_now s <= N.to_nat (pool.capacity (workerPool (exec s))) /\
  borrowed s + available s <= N.to_nat (pool.capacity (workerPool (exec s))) /\
  (borrowed s = N.to_nat (pool.capacity (workerPool (exec s))) ->
   step act_dispatch s = None) /\
  (forall a s',
     step a s = Some s' ->
     borrowed s' < borrowed s ->
     exists k t,
       a = act_task k /\
       nth_error (goroutines (exec s)) k = Some t /\
       task_stage t = deferred /\
       pool.items (workerPool (exec s')) =
         pool.items (workerPool (exec s)) ++ [task_worker t]).
Proof.
  intros HNew Hrun.
  assert (Hstart : within_capacity (start e0) /\
                   pool.capacity (workerPool e0) = uint32 workerCount).
  { unfold New, bind in HNew.
    match type of HNew with
    | context [populate ?n ?e] => destruct (populate n e) as [r e1] eqn:Hpop
    end.
    apply populate_pool in Hpop. cbn in Hpop. destruct Hpop as (Hg & Hc & Hl).
    destruct r as [[er|]| |]; cbn in HNew; try discriminate HNew.
    injection HNew as <-.
    unfold within_capacity, borrowed, available. cbn.
    rewrite Hg, Hc. cbn. split; [apply Hl; lia|reflexivity]. }
  destruct Hstart as [Hinv0 Hcap0].
  destruct (run_within_capacity _ _ _ Hrun Hinv0) as [Hinv Hcap].
  cbn in Hcap.
  split; [congruence|]. split.
  { unfold within_capacity, borrowed in Hinv. unfold executing_now.
    pose proof (filter_length_le
                  (fun t => match task_stage t with
                            | executing => true
                            | deferred => false
                            end) (goroutines (exec s))). lia. }
  split; [exact Hinv|]. split.
  - apply dispatch_waits_for_a_worker. exact Hinv.
  - intros a s'. apply step_returns_worker.
Qed.

(** The dispatcher of the running program is the loop of [Run]: an iteration
    that goes round is a [select] step and a dispatch step, and one that
    returns is a [select] step that leaves the dispatcher gone. *)
Lemma iteration_in_steps (c : select_case) (s : System) (e' : executor) :
  dispatcher s = at_select ->
  crashed s = None ->
  (iteration c (exec s) = (Return loop_continue, e') ->
   run [act_select c; act_dispatch] s = Some (with_dispatcher at_select e')) /\
  (iteration c (exec s) = (Return loop_return, e') ->
   run [act_select c] s = Some (with_dispatcher returned e')).
Proof.
  intros Hd Hc. unfold iteration, bind. cbn [run]. unfold step at 1 3.
  rewrite Hc. cbn [step_live]. rewrite Hd.
  destruct (select c (exec s)) as [[[msg|]| |] e1]; cbn [after].
  - split; [|destruct (dispatch msg e1) as [[]]; discriminate].
    unfold step, with_dispatcher; cbn.
    destruct (dispatch msg e1) as [[[]| |] e2]; cbn; intros H;
      inversion H; reflexivity.
  - split; intros H; inversion H; reflexivity.
  - split; discriminate.
  - split; discriminate.
Qed.

(** Nothing in [Teardown] or in the deferred function reads the list of
    goroutines. *)
Lemma destroy_next_set_goroutines (g : list Task) (e e' : executor)
    (r : Outcome error) :
  destroy_next e = (r, e') ->
  destroy_next (set_goroutines g e) = (r, set_goroutines g e').
Proof.
  unfold destroy_next, bind, workerPool_Get, workerFactory_Destroy, pool.Get.
  cbn [workerPool set_goroutines].
  destruct (pool.items (workerPool e)) as [|w rest].
  - intros H; inversion H; reflexivity.
  - cbn. destruct (Destroy w (workerFactory e)) as [[er|] f]; cbn;
      intros H; inversion H; reflexivity.
Qed.

Lemma destroy_loop_set_goroutines (g : list Task) (n : nat) :
  forall i e r e',
    length (pool.items (workerPool e)) = n ->
    destroy_loop i e = (r, e') ->
    destroy_loop i (set_goroutines g e) = (r, set_goroutines g e').
Proof.
  induction n as [|n IH]; intros i e r e' Hlen Hrun;
    rewrite destroy_loop_eq in Hrun; rewrite destroy_loop_eq;
    cbn [workerPool set_goroutines];
    destruct (N.ltb_spec i (pool.Avail (workerPool e))) as [Hlt|Hge].
  - unfold pool.Avail in Hlt. rewrite Hlen in Hlt. lia.
  - inversion Hrun; reflexivity.
  - destruct (destroy_next e) as [r1 e1] eqn:Hn.
    rewrite (destroy_next_set_goroutines g _ _ _ Hn).
    destruct (destroy_next_reclaims _ _ _ Hn) as (_ & _ & Hdec).
    destruct r1 as [[er|]| |]; try (inversion Hrun; reflexivity).
    apply IH; [|exact Hrun]. specialize (Hdec eq_refl). lia.
  - inversion Hrun; reflexivity.
Qed.

Lemma Teardown_set_goroutines (g : list Task) (e e' : executor)
    (r : Outcome error) :
  Teardown e = (r, e') ->
  Teardown (set_goroutines g e) = (r, set_goroutines g e').
Proof.
  unfold Teardown, bind. intros Hrun.
  destruct (destroy_loop 0 e) as [r1 e1] eqn:Hloop.
  rewrite (destroy_loop_set_goroutines g _ _ _ _ _ eq_refl Hloop).
  destruct r1 as [[er|]| |]; try (inversion Hrun; reflexivity).
  unfold workerPool_Teardown in *. cbn [workerPool set_goroutines].
  destruct (pool.Teardown (workerPool e1)) as [[te|] p];
    inversion Hrun; reflexivity.
Qed.

Lemma return_worker_set_goroutines (g : list Task) (w : W) (e e' : executor)
    (r : Outcome unit) :
  return_worker w e = (r, e') ->
  return_worker w (set_goroutines g e) = (r, set_goroutines g e').
Proof.
  unfold return_worker, bind, workerPool_Put. cbn [workerPool set_goroutines].
  destruct (pool.Put w (workerPool e)) as [[perr|] p].
  - match goal with
    | |- context [Teardown ?e1] => destruct (Teardown e1) as [r1 e2] eqn:HT
    end.
    apply (Teardown_set_goroutines g) in HT. cbn in HT. intros Hrun.
    match goal with
    | |- context [Teardown ?e1] => change (Teardown e1) with
          (Teardown (log (ev_Put w (Some perr)) (set_workerPool p (set_goroutines g e))))
    end.
    change (log (ev_Put w (Some perr)) (set_workerPool p (set_goroutines g e)))
      with (set_goroutines g (log (ev_Put w (Some perr)) (set_workerPool p e))).
    rewrite HT.
    destruct r1 as [[te|]| |]; inversion Hrun; reflexivity.
  - intros H; inversion H; reflexivity.
Qed.

Lemma replace_nth_same {A : Type} (k : nat) (a b : A) (l : list A) :
  nth_error l k = Some b -> nth_error (replace_nth k a l) k = Some a.
Proof.
  revert k. induction l as [|c l IH]; intros [|k] H; cbn in *;
    try discriminate; auto.
Qed.

Lemma remove_replace_nth {A : Type} (k : nat) (a : A) (l : list A) :
  remove_nth k (replace_nth k a l) = remove_nth k l.
Proof.
  revert k. induction l as [|c l IH]; intros [|k]; cbn; auto.
  rewrite IH. reflexivity.
Qed.

(** The task goroutines of the running program run the body [task]: the two
    steps of a goroutine do what [task] does, and then the goroutine is gone,
    or the process is dead if [task] panicked. *)
Lemma task_in_steps (k : nat) (s : System) (t : Task) (e' : executor) :
  crashed s = None ->
  nth_error (goroutines (exec s)) k = Some t ->
  task_stage t = executing ->
  (task (task_msg t) (task_worker t) (exec s) = (Return tt, e') ->
   run [act_task k; act_task k] s =
     Some (with_exec s
             (set_goroutines (remove_nth k (goroutines (exec s))) e'))) /\
  (forall v,
     task (task_msg t) (task_worker t) (exec s) = (Panic v, e') ->
     option_map crashed (run [act_task k; act_task k] s) = Some (Some v) /\
     option_map (fun s' => history (exec s')) (run [act_task k; act_task k] s)
       = Some (history e')).
Proof.
  intros Hc Hk Hstage. rewrite task_eq.
  cbn [run]. unfold step at 1 3 5. rewrite Hc. cbn [step_live].
  rewrite Hk, Hstage, execute_task_eq. cbn [after snd].
  set (e1 := match snd (Execute (task_worker t) (cancelContext (exec s)) (task_msg t))
             with Some er => _ | None => _ end).
  assert (Hg : goroutines e1 = goroutines (exec s)).
  { subst e1.
    destruct (snd (Execute (task_worker t) (cancelContext (exec s)) (task_msg t)));
      reflexivity. }
  set (t' := {| task_msg := task_msg t; task_worker := task_worker t;
                task_stage := deferred |}).
  unfold step, with_exec. cbn [crashed exec]. rewrite Hc. cbn [step_live exec].
  cbn [goroutines set_goroutines]. rewrite Hg, (replace_nth_same k t' t _ Hk).
  cbn [task_stage task_worker t'].
  destruct (return_worker (task_worker t) e1) as [r e2] eqn:Hret.
  rewrite (return_worker_set_goroutines _ _ _ _ _ Hret).
  pose proof (return_worker_trace _ _ _ _ Hret) as (_ & _ & _ & Hg2 & _).
  split.
  - intros H; inversion H; subst. cbn.
    rewrite remove_replace_nth. reflexivity.
  - intros v H; inversion H; subst. cbn. split; reflexivity.
Qed.

Lemma reclaims_counts (e e' : executor) :
  reclaims e e' ->
  count is_receive (history e') = count is_receive (history e) /\
  count is_go (history e') = count is_go (history e).
Proof.
  intros (_ & _ & _ & _ & _ & _ & _ & evs & -> & Hevs).
  rewrite !count_app.
  rewrite (pool_event_count is_receive evs), (pool_event_count is_go evs);
    try exact Hevs; try (intros []; cbn; congruence).
  lia.
Qed.

(** Once the dispatch goroutine is gone it stays gone, and no step of the
    program receives from the input channel or starts a task. *)
Lemma step_after_return (a : Action) (s s' : System) :
  step a s = Some s' ->
  dispatcher s = returned ->
  dispatcher s' = returned /\ received s' = received s /\ started s' = started s.
Proof.
  unfold step, received, started.
  destruct (crashed s); [discriminate|].
  destruct s as [e d cr]; cbn [exec dispatcher crashed].
  intros Hstep ->. revert Hstep.
  destruct a; cbn [step_live Run exec dispatcher crashed]; try discriminate.
  - destruct (nth_error (goroutines e) k) as [t|] eqn:Hk; [|discriminate].
    destruct (task_stage t) eqn:Hstage.
    + rewrite execute_task_eq. cbn -[count].
      destruct (snd (Execute (task_worker t) (cancelContext e) (task_msg t)));
        stepped; cbn -[count]; rewrite !count_app; cbn; rewrite !Nat.add_0_r;
        auto.
    + destruct (return_worker (task_worker t) e) as [r e1] eqn:Hret.
      apply return_worker_trace in Hret.
      destruct Hret as (_ & _ & _ & _ & _ & rest & Hh & Hrest & _).
      assert (Hcounts :
                count is_receive (history e1) = count is_receive (history e) /\
                count is_go (history e1) = count is_go (history e)).
      { rewrite Hh, !count_app.
        change (count is_receive (ev_Put (task_worker t)
                  (fst (pool.Put (task_worker t) (workerPool e))) :: rest))
          with (count is_receive rest).
        change (count is_go (ev_Put (task_worker t)
                  (fst (pool.Put (task_worker t) (workerPool e))) :: rest))
          with (count is_go rest).
        rewrite (pool_event_count is_receive rest),
                (pool_event_count is_go rest);
          try exact Hrest; try (intros []; cbn; congruence).
        lia. }
      destruct r; cbn; stepped; cbn; auto.
  - destruct (Teardown e) as [r e1] eqn:HT.
    destruct (Teardown_reclaims _ _ _ HT) as ([terr ->] & Hrec).
    apply reclaims_counts in Hrec. cbn. stepped; cbn. auto.
  - destruct (closed (inputChannel e)); [discriminate|]. stepped; cbn. auto.
  - destruct (closed (inputChannel e)); [discriminate|]. stepped; cbn. auto.
  - destruct (ctx_Err (cancelContext e)); [discriminate|]. stepped; cbn. auto.
Qed.

Lemma run_after_return (acts : list Action) :
  forall s s',
    run acts s = Some s' ->
    dispatcher s = returned ->
    received s' = received s /\ started s' = started s.
Proof.
  induction acts as [|a acts IH]; intros s s' Hrun Hd.
  - inversion Hrun; subst. auto.
  - cbn in Hrun. destruct (step a s) as [s1|] eqn:Hstep; [|discriminate].
    destruct (step_after_return _ _ _ Hstep Hd) as (Hd1 & Hr1 & Hs1).
    destruct (IH _ _ Hrun Hd1) as (Hr & Hs). split; congruence.
Qed.

(** In the running program: after the step in which the [select] takes the
    case of the cancelled context, whatever happens next, nothing more is
    received from the input channel and no task is started. *)
Lemma nothing_accepted_after_cancellation
    (s s1 s2 : System) (acts : list Action) :
  step (act_select case_Done) s = Some s1 ->
  run acts s1 = Some s2 ->
  received s2 = received s /\ started s2 = started s.
Proof.
  intros Hstep Hrun.
  assert (Hs1 : received s1 = received s /\ started s1 = started s /\
                (crashed s1 = None -> dispatcher s1 = returned)).
  { revert Hstep. unfold step, received, started.
    destruct (crashed s); [discriminate|]. cbn [step_live].
    destruct (dispatcher s); try discriminate.
    unfold select, bind, receive_Done.
    destruct (Done_closed (cancelContext (exec s))); [|discriminate].
    unfold cancelContext_Err, send_error. cbv beta iota.
    match goal with
    | |- context [Teardown_or_panic ?e1] =>
        destruct (Teardown_or_panic e1) as [r e2] eqn:HT
    end.
    unfold Teardown_or_panic, bind in HT.
    match type of HT with
    | context [Teardown ?e1] => destruct (Teardown e1) as [r1 e3] eqn:HT1
    end.
    destruct (Teardown_reclaims _ _ _ HT1) as ([terr ->] & Hrec).
    apply reclaims_counts in Hrec. cbn -[count] in Hrec.
    rewrite !count_app in Hrec. cbn in Hrec. rewrite !Nat.add_0_r in Hrec.
    destruct terr; inversion HT; subst; cbn; stepped; cbn;
      (split; [tauto|]); (split; [tauto|]); (discriminate || reflexivity). }
  destruct Hs1 as (Hr1 & Hg1 & Hd1).
  destruct (crashed s1) eqn:Hc1.
  - destruct acts as [|a acts]; cbn in Hrun.
    + inversion Hrun; subst. auto.
    + unfold step in Hrun. rewrite Hc1 in Hrun. discriminate.
  - destruct (run_after_return _ _ _ Hrun (Hd1 eq_refl)) as (Hr & Hg).
    split; congruence.
Qed.

(** ** Further properties *)

(** *** Construction *)

Lemma populate_all_created (n : nat) :
  forall e r e',
    (forall f, snd (fst (Create f)) = None) ->
    (forall p w, pool.Put_fault p w = None) ->
    (N.of_nat (length (pool.items (workerPool e)) + n) <=
       pool.capacity (workerPool e))%N ->
    populate n e = (r, e') ->
    r = Return None /\
    exists ws,
      length ws = n /\
      pool.items (workerPool e') = pool.items (workerPool e) ++ ws /\
      history e' = history e ++ populate_calls ws.
Proof.
  induction n as [|n IH]; intros e r e' HC HP Hcap Hrun.
  - inversion Hrun; subst. split; [reflexivity|]. exists [].
    cbn. rewrite !app_nil_r. auto.
  - cbn [populate] in Hrun. unfold bind, workerFactory_Create in Hrun.
    pose proof (HC (workerFactory e)) as HC1.
    destruct (Create (workerFactory e)) as [[wrkr er] f]. cbn in HC1. subst er.
    unfold workerPool_Put in Hrun. cbn [workerPool set_workerFactory log] in Hrun.
    unfold pool.Put in Hrun. rewrite HP in Hrun.
    destruct (N.ltb_spec (pool.Avail (workerPool e))
                (pool.capacity (workerPool e))) as [Hlt|Hge];
      [|unfold pool.Avail in Hge; lia].
    apply IH in Hrun; [|exact HC|exact HP|cbn; rewrite length_app; cbn; lia].
    destruct Hrun as (-> & ws & Hlen & Hitems & Hhist). cbn in Hitems, Hhist.
    split; [reflexivity|]. exists (wrkr :: ws). cbn.
    split; [lia|]. split; [rewrite Hitems, <- app_assoc; reflexivity|].
    rewrite Hhist, <- !app_assoc. reflexivity.
Qed.

(** X1.  When no [Create] fails and the pool reports no failure, [New] returns an
    executor and a nil error; the pool then holds exactly [workerCount]
    workers, and the calls [New] made are one [Create] and one [Put] for each
    of them, in the order in which the pool holds them. *)
Theorem New_populates_the_pool
    (input : chan I) (output : list O) (errors : list error) (ctx : Context)
    (f : FState) (workerCount : N) :
  (forall f', snd (fst (Create f')) = None) ->
  (forall p w, pool.Put_fault p w = None) ->
  (workerCount < 2 ^ 32)%N ->
  exists e,
    New input output errors ctx f workerCount = (Return (Some e, None), e) /\
    length (pool.items (workerPool e)) = N.to_nat workerCount /\
    pool.capacity (workerPool e) = workerCount /\
    history e = populate_calls (pool.items (workerPool e)) /\
    workers_created (history e) = pool.items (workerPool e).
Proof.
  intros HC HP Hbound. unfold New, bind.
  match goal with
  | |- context [populate ?n ?e0] =>
      destruct (populate n e0) as [r e1] eqn:Hpop
  end.
  assert (Hu : uint32 workerCount = workerCount)
    by (unfold uint32; apply N.mod_small; exact Hbound).
  pose proof Hpop as Hpool. apply populate_pool in Hpool.
  destruct Hpool as (_ & Hcap & _). cbn in Hcap.
  apply populate_all_created in Hpop; [|exact HC|exact HP|cbn; rewrite Hu; lia].
  destruct Hpop as (-> & ws & Hlen & Hitems & Hhist). cbn in Hitems, Hhist.
  exists e1. split; [reflexivity|]. rewrite Hitems, Hhist, Hcap, Hu.
  split; [exact Hlen|]. split; [reflexivity|]. split; [reflexivity|].
  clear. unfold workers_created, populate_calls.
  induction ws as [|w ws IH]; cbn; [reflexivity|]. f_equal. exact IH.
Qed.

Lemma populate_Put_trace (n : nat) (e e' : executor) (r : Outcome error) :
  populate n e = (r, e') ->
  exists evs,
    history e' = history e ++ evs /\
    (forall w er, In (ev_Put w (Some er)) evs ->
       r = Return (Some er) /\
       exists calls, evs = calls ++ [ev_Create w None; ev_Put w (Some er)]).
Proof.
  revert e. induction n as [|n IH]; intros e Hrun.
  - inversion Hrun; subst. exists []. rewrite app_nil_r.
    split; [reflexivity|]. intros ? ? [].
  - cbn [populate] in Hrun. unfold bind, workerFactory_Create in Hrun.
    destruct (Create (workerFactory e)) as [[wrkr [er0|]] f].
    + inversion Hrun; subst. exists [ev_Create wrkr (Some er0)]. cbn.
      split; [reflexivity|]. intros w er [H|[]]. discriminate H.
    + unfold workerPool_Put in Hrun.
      match type of Hrun with
      | context [pool.Put ?w ?p] =>
          destruct (pool.Put w p) as [[perr|] p'] eqn:HPut
      end.
      * inversion Hrun; subst.
        exists [ev_Create wrkr None; ev_Put wrkr (Some perr)]. cbn.
        rewrite <- app_assoc. split; [reflexivity|].
        intros w er [H|[H|[]]]; [discriminate H|]. inversion H; subst.
        split; [reflexivity|]. exists []. reflexivity.
      * destruct (IH _ Hrun) as (evs & Hh & Hc).
        exists (ev_Create wrkr None :: ev_Put wrkr None :: evs).
        split; [rewrite Hh; cbn; rewrite <- !app_assoc; reflexivity|].
        intros w er [H|[H|H]]; try discriminate H.
        destruct (Hc w er H) as (Hr & calls & Hcalls). split; [exact Hr|].
        exists (ev_Create wrkr None :: ev_Put wrkr None :: calls).
        rewrite Hcalls. reflexivity.
Qed.

(** X2.  If a [Put] call made by [New] fails, [New] returns that very error and a
    nil [Executor].  The failed [Put] is the last call [New] makes, right
    after the [Create] that returned the worker: that worker is not put in the
    pool and is not destroyed. *)
Theorem New_Put_failure
    (input : chan I) (output : list O) (errors : list error) (ctx : Context)
    (f : FState) (workerCount : N) (w : W) (er : err) :
  In (ev_Put w (Some er))
     (history (snd (New input output errors ctx f workerCount))) ->
  fst (New input output errors ctx f workerCount) = Return (None, Some er) /\
  exists calls,
    history (snd (New input output errors ctx f workerCount)) =
    calls ++ [ev_Create w None; ev_Put w (Some er)] /\
    put_back (history (snd (New input output errors ctx f workerCount))) =
    put_back calls.
Proof.
  unfold New, bind.
  match goal with
  | |- context [populate ?n ?e0] =>
      destruct (populate n e0) as [r e1] eqn:Hpop
  end.
  destruct (populate_Put_trace _ _ _ _ Hpop) as (evs & Hh & Hc). cbn in Hh.
  intros Hin.
  assert (Hin' : In (ev_Put w (Some er)) evs).
  { rewrite <- Hh. destruct r as [[er'|]| |]; exact Hin. }
  destruct (Hc _ _ Hin') as (-> & calls & ->). cbn.
  split; [reflexivity|]. exists calls. split; [exact Hh|].
  rewrite Hh. unfold put_back. rewrite flat_map_app. cbn.
  rewrite app_nil_r. reflexivity.
Qed.

Lemma populate_ledger (n : nat) :
  forall e r e',
    populate n e = (r, e') ->
    (exists er, r = Return er) /\
    inputChannel e' = inputChannel e /\
    outputChannel e' = outputChannel e /\
    errorChannel e' = errorChannel e /\
    cancelContext e' = cancelContext e /\
    goroutines e' = goroutines e /\
    exists evs,
      history e' = history e ++ evs /\
      pool.items (workerPool e') = pool.items (workerPool e) ++ put_back evs /\
      Forall (fun ev => populating ev = true) evs /\
      count is_Create evs <= n /\
      count is_Put evs <= count is_Create evs.
Proof.
  induction n as [|n IH]; intros e r e' Hrun.
  - inversion Hrun; subst. split; [eauto|]. repeat (split; [reflexivity|]).
    exists []. cbn. rewrite !app_nil_r. repeat (split; auto).
  - cbn [populate] in Hrun. unfold bind, workerFactory_Create in Hrun.
    destruct (Create (workerFactory e)) as [[wrkr [er0|]] f].
    + inversion Hrun; subst. split; [eauto|]. cbn.
      repeat (split; [reflexivity|]).
      exists [ev_Create wrkr (Some er0)]. cbn. rewrite app_nil_r.
      split; [reflexivity|]. split; [reflexivity|].
      split; [repeat constructor|]. unfold count; cbn. lia.
    + unfold workerPool_Put in Hrun. cbn [workerPool set_workerFactory log] in Hrun.
      destruct (pool.Put wrkr (workerPool e)) as [[perr|] p'] eqn:HPut.
      * inversion Hrun; subst. split; [eauto|]. cbn.
        repeat (split; [reflexivity|]).
        exists [ev_Create wrkr None; ev_Put wrkr (Some perr)]. cbn.
        rewrite (Put_failure_keeps_pool _ _ _ _ HPut), app_nil_r, <- app_assoc.
        split; [reflexivity|]. split; [reflexivity|].
        split; [repeat constructor|]. unfold count; cbn. lia.
      * assert (Hp : pool.items p' = pool.items (workerPool e) ++ [wrkr]).
        { unfold pool.Put in HPut.
          destruct (pool.Put_fault (workerPool e) wrkr); [discriminate HPut|].
          destruct (pool.Avail (workerPool e) <? pool.capacity (workerPool e))%N;
            inversion HPut; reflexivity. }
        apply IH in Hrun.
        destruct Hrun as (Hr & H1 & H2 & H3 & H4 & H5 & evs & Hh & Hi & Hf & Hn & Hle).
        cbn in H1, H2, H3, H4, H5, Hh, Hi.
        split; [exact Hr|]. repeat (split; [assumption|]).
        exists (ev_Create wrkr None :: ev_Put wrkr None :: evs).
        split; [rewrite Hh, <- !app_assoc; reflexivity|].
        split; [rewrite Hi, Hp, <- app_assoc; reflexivity|].
        split; [repeat constructor; exact Hf|].
        unfold count in *; cbn; lia.
Qed.

(** X3.  [New] works on the factory and the pool and on nothing else: the struct it
    builds holds the channels and the context it was given, nothing was sent
    and no goroutine was started.  Whichever way it ends, the pool holds the
    workers of the [Put] calls that succeeded, in order; [New] makes at most
    [workerCount] calls of [Create] and no more calls of [Put] than that. *)
Theorem New_touches_factory_and_pool_only
    (input : chan I) (output : list O) (errors : list error) (ctx : Context)
    (f : FState) (workerCount : N) :
  inputChannel (snd (New input output errors ctx f workerCount)) = input /\
  outputChannel (snd (New input output errors ctx f workerCount)) = output /\
  errorChannel (snd (New input output errors ctx f workerCount)) = errors /\
  cancelContext (snd (New input output errors ctx f workerCount)) = ctx /\
  goroutines (snd (New input output errors ctx f workerCount)) = [] /\
  pool.items (workerPool (snd (New input output errors ctx f workerCount))) =
    put_back (history (snd (New input output errors ctx f workerCount))) /\
  Forall (fun ev => populating ev = true)
    (history (snd (New input output errors ctx f workerCount))) /\
  count is_Create (history (snd (New input output errors ctx f workerCount)))
    <= N.to_nat workerCount /\
  count is_Put (history (snd (New input output errors ctx f workerCount)))
    <= count is_Create
         (history (snd (New input output errors ctx f workerCount))).
Proof.
  unfold New, bind.
  match goal with
  | |- context [populate ?n ?e0] =>
      destruct (populate n e0) as [r e1] eqn:Hpop
  end.
  apply populate_ledger in Hpop.
  destruct Hpop as (_ & H1 & H2 & H3 & H4 & H5 & evs & Hh & Hi & Hf & Hn & Hle).
  cbn in H1, H2, H3, H4, H5, Hh, Hi. subst evs.
  assert (Hgoal :
            inputChannel e1 = input /\ outputChannel e1 = output /\
            errorChannel e1 = errors /\ cancelContext e1 = ctx /\
            goroutines e1 = [] /\
            pool.items (workerPool e1) = put_back (history e1) /\
            Forall (fun ev => populating ev = true) (history e1) /\
            count is_Create (history e1) <= N.to_nat workerCount /\
            count is_Put (history e1) <= count is_Create (history e1))
    by (repeat (split; [assumption|]); assumption).
  destruct r as [[er|]| |]; exact Hgoal.
Qed.

(** [New] always returns, and it returns an executor exactly when it returns
    no error: either an [Executor] and nil, or nil and an error. *)
Theorem New_returns_executor_or_error
    (input : chan I) (output : list O) (errors : list error) (ctx : Context)
    (f : FState) (workerCount : N) :
  (exists e, fst (New input output errors ctx f workerCount)
             = Return (Some e, None)) \/
  (exists er, fst (New input output errors ctx f workerCount)
              = Return (None, Some er)).
Proof.
  unfold New, bind.
  match goal with
  | |- context [populate ?n ?e0] =>
      destruct (populate n e0) as [r e1] eqn:Hpop
  end.
  apply populate_ledger in Hpop. destruct Hpop as ([er ->] & _).
  destruct er as [er|]; cbn; eauto.
Qed.

(** *** Teardown *)


Lemma taken_app (h1 h2 : list Event) : taken (h1 ++ h2) = taken h1 ++ taken h2.
Proof. unfold taken. apply flat_map_app. Qed.

Lemma put_back_app (h1 h2 : list Event) :
  put_back (h1 ++ h2) = put_back h1 ++ put_back h2.
Proof. unfold put_back. apply flat_map_app. Qed.

Lemma destroy_loop_ledger (n : nat) :
  forall i e r e',
    length (pool.items (workerPool e)) = n ->
    destroy_loop i e = (r, e') ->
    exists ws,
      pool.items (workerPool e) = ws ++ pool.items (workerPool e') /\
      taken (history e') = taken (history e) ++ ws /\
      destroyed (history e') = destroyed (history e) ++ ws /\
      put_back (history e') = put_back (history e).
Proof.
  induction n as [|n IH]; intros i e r e' Hlen Hrun;
    rewrite destroy_loop_eq in Hrun;
    destruct (N.ltb_spec i (pool.Avail (workerPool e))) as [Hlt|Hge];
    unfold pool.Avail in *; rewrite Hlen in *.
  - lia.
  - inversion Hrun; subst. exists []. rewrite !app_nil_r. auto.
  - destruct (destroy_next e) as [r1 e1] eqn:Hn.
    apply destroy_next_inv in Hn.
    destruct (pool.items (workerPool e)) as [|w rest] eqn:Hit; [discriminate Hlen|].
    destruct (Destroy w (workerFactory e)) as [[er|] f]; destruct Hn as [-> ->].
    + inversion Hrun; subst. exists [w]. cbn.
      rewrite !taken_app, !destroyed_app, !put_back_app. cbn.
      rewrite !app_nil_r. auto.
    + assert (Hlen1 : length rest = n) by (cbn in Hlen; lia).
      apply IH in Hrun; [|exact Hlen1].
      destruct Hrun as (ws & Hi & Ht & Hd & Hp). cbn in Hi, Ht, Hd, Hp.
      rewrite !taken_app, !destroyed_app, !put_back_app in *. cbn in *.
      rewrite !app_nil_r in *.
      exists (w :: ws). rewrite Hi, Ht, Hd, Hp, <- !app_assoc. auto.
  - inversion Hrun; subst. exists []. rewrite !app_nil_r. auto.
Qed.

Lemma Teardown_ledger (e e' : executor) (r : Outcome error) :
  Teardown e = (r, e') ->
  exists ws,
    pool.items (workerPool e) = ws ++ pool.items (workerPool e') /\
    taken (history e') = taken (history e) ++ ws /\
    destroyed (history e') = destroyed (history e) ++ ws /\
    put_back (history e') = put_back (history e).
Proof.
  unfold Teardown, bind. intros Hrun.
  destruct (destroy_loop 0 e) as [r1 e1] eqn:Hloop.
  destruct (destroy_loop_ledger _ _ _ _ _ eq_refl Hloop) as (ws & Hi & Ht & Hd & Hp).
  destruct r1 as [[er|]| |]; try (inversion Hrun; subst; eauto).
  unfold workerPool_Teardown, pool.Teardown in Hrun.
  destruct (pool.Teardown_fault (workerPool e1)); cbn in Hrun;
    inversion Hrun; subst; cbn; exists ws;
    rewrite taken_app, destroyed_app, put_back_app; cbn;
    rewrite !app_nil_r; auto.
Qed.

(** X5.  The workers [Teardown] takes out of the pool are the first of the
    available ones, in order, and they are the ones it calls [Destroy] on:
    none is taken without being destroyed, none is put back, and the workers
    it does not take stay in the pool.  This holds however [Teardown] ends. *)
Theorem Teardown_destroys_what_it_takes (e : executor) :
  exists ws,
    pool.items (workerPool e) = ws ++ pool.items (workerPool (snd (Teardown e))) /\
    taken (history (snd (Teardown e))) = taken (history e) ++ ws /\
    destroyed (history (snd (Teardown e))) = destroyed (history e) ++ ws /\
    put_back (history (snd (Teardown e))) = put_back (history e).
Proof.
  destruct (Teardown e) as [r e'] eqn:HT. apply Teardown_ledger in HT. exact HT.
Qed.

Lemma destroy_loop_error (n : nat) :
  forall i e r e',
    length (pool.items (workerPool e)) = n ->
    destroy_loop i e = (r, e') ->
    exists evs,
      history e' = history e ++ evs /\
      match r with
      | Return None => Forall (fun ev => is_failure ev = false) evs
      | Return (Some v) =>
          exists w cause calls,
            evs = calls ++ [ev_Destroy w (Some cause)] /\
            Forall (fun ev => is_failure ev = false) calls /\
            v = fmt_Errorf "failed to destroy worker: %w" (Some cause)
      | _ => False
      end.
Proof.
  induction n as [|n IH]; intros i e r e' Hlen Hrun;
    rewrite destroy_loop_eq in Hrun;
    destruct (N.ltb_spec i (pool.Avail (workerPool e))) as [Hlt|Hge];
    unfold pool.Avail in *; rewrite Hlen in *.
  - lia.
  - inversion Hrun; subst. exists []. rewrite app_nil_r. split; [reflexivity|].
    constructor.
  - destruct (destroy_next e) as [r1 e1] eqn:Hn.
    apply destroy_next_inv in Hn.
    destruct (pool.items (workerPool e)) as [|w rest] eqn:Hit; [discriminate Hlen|].
    destruct (Destroy w (workerFactory e)) as [[er|] f]; destruct Hn as [-> ->].
    + inversion Hrun; subst. exists [ev_Get w; ev_Destroy w (Some er)]. cbn.
      rewrite <- app_assoc. split; [reflexivity|].
      exists w, er, [ev_Get w]. repeat split. repeat constructor.
    + assert (Hlen1 : length rest = n) by (cbn in Hlen; lia).
      apply IH in Hrun; [|exact Hlen1].
      destruct Hrun as (evs & Hh & Hr). cbn in Hh.
      exists (ev_Get w :: ev_Destroy w None :: evs).
      split; [rewrite Hh, <- !app_assoc; reflexivity|].
      destruct r as [[v|]| |]; try contradiction.
      * destruct Hr as (w' & cause & calls & -> & Hok & ->).
        exists w', cause, (ev_Get w :: ev_Destroy w None :: calls).
        repeat split. repeat constructor. exact Hok.
      * repeat constructor. exact Hr.
  - inversion Hrun; subst. exists []. rewrite app_nil_r. split; [reflexivity|].
    constructor.
Qed.

(** X6.  A nil result of [Teardown] means what it says: no call failed, the pool's
    own [Teardown] was the last call, and the pool is torn down. *)
Theorem Teardown_nil_result (e : executor) :
  fst (Teardown e) = Return None ->
  pool.torn_down (workerPool (snd (Teardown e))) = true /\
  exists calls,
    history (snd (Teardown e)) = history e ++ calls ++ [ev_PoolTeardown None] /\
    Forall (fun ev => is_failure ev = false) calls.
Proof.
  unfold Teardown, bind.
  destruct (destroy_loop 0 e) as [r1 e1] eqn:Hloop.
  destruct (destroy_loop_error _ _ _ _ _ eq_refl Hloop) as (evs & Hh & Hr).
  destruct r1 as [[v|]| |]; try contradiction; [discriminate|].
  unfold workerPool_Teardown, pool.Teardown.
  destruct (pool.Teardown_fault (workerPool e1)); cbn; [discriminate|].
  intros _. split; [reflexivity|]. exists evs.
  rewrite Hh, <- app_assoc. auto.
Qed.

(** X7.  An error that [Teardown] returns wraps the error of the call that failed,
    which is the last call [Teardown] made: a [Destroy], or the pool's own
    [Teardown] after a loop without failure.  The pool is then not marked as
    torn down by this call. *)
Theorem Teardown_error_result (e : executor) (v : err) :
  fst (Teardown e) = Return (Some v) ->
  pool.torn_down (workerPool (snd (Teardown e))) =
    pool.torn_down (workerPool e) /\
  exists cause calls,
    carries cause v /\
    Forall (fun ev => is_failure ev = false) calls /\
    ((exists w,
        history (snd (Teardown e)) =
          history e ++ calls ++ [ev_Destroy w (Some cause)] /\
        v = fmt_Errorf "failed to destroy worker: %w" (Some cause)) \/
     (history (snd (Teardown e)) =
        history e ++ calls ++ [ev_PoolTeardown (Some cause)] /\
      v = fmt_Errorf "failed to teardown worker pool: %w" (Some cause))).
Proof.
  unfold Teardown, bind.
  destruct (destroy_loop 0 e) as [r1 e1] eqn:Hloop.
  destruct (destroy_loop_error _ _ _ _ _ eq_refl Hloop) as (evs & Hh & Hr).
  destruct (destroy_loop_trace _ _ _ _ _ eq_refl Hloop) as (_ & _ & _ & Htorn & _).
  destruct r1 as [[v1|]| |]; try contradiction.
  - cbn. intros Hv. injection Hv as <-.
    destruct Hr as (w & cause & calls & -> & Hok & ->).
    split; [exact Htorn|]. exists cause, calls.
    split; [cbn; right; destruct cause; left; reflexivity|].
    split; [exact Hok|]. left. exists w. split; [exact Hh|reflexivity].
  - unfold workerPool_Teardown, pool.Teardown.
    destruct (pool.Teardown_fault (workerPool e1)) as [te|]; cbn;
      [|discriminate].
    intros Hv. injection Hv as <-. split; [exact Htorn|].
    exists te, evs. split; [cbn; right; destruct te; left; reflexivity|].
    split; [exact Hr|]. right. rewrite Hh, <- app_assoc. auto.
Qed.

(** *** The task goroutine *)

(** X10.  When [Execute] returns no error, its output is what the task goroutine
    sends, on the output stream; the error stream gets nothing; and
    [Pool.Put] is called on the worker after the send.  When the pool takes
    the worker, the goroutine returns and the worker is available again. *)
Theorem task_output_goes_to_output_stream
    (msg : I) (w : W) (e : executor) (output : O) :
  Execute w (cancelContext e) msg = (output, None) ->
  outputChannel (snd (task msg w e)) = outputChannel e ++ [output] /\
  errorChannel (snd (task msg w e)) = errorChannel e /\
  exists rest,
    history (snd (task msg w e)) =
      history e ++
      ev_Execute w msg output None :: ev_send_output output ::
      ev_Put w (fst (pool.Put w (workerPool e))) :: rest /\
    count is_send_error
      (ev_Execute w msg output None :: ev_send_output output ::
       ev_Put w (fst (pool.Put w (workerPool e))) :: rest) = 0 /\
    (fst (pool.Put w (workerPool e)) = None ->
     fst (task msg w e) = Return tt /\
     pool.items (workerPool (snd (task msg w e))) =
       pool.items (workerPool e) ++ [w]).
Proof.
  intros HE. rewrite task_eq, execute_task_eq, HE. cbn [fst snd].
  match goal with
  | |- context [return_worker w ?e1] =>
      destruct (return_worker w e1) as [r e'] eqn:Hret
  end.
  apply return_worker_trace in Hret.
  destruct Hret as (H1 & H2 & _ & _ & _ & rest & Hh & Hrest & Hput).
  cbn in H1, H2, Hh, Hput. cbn [fst snd].
  split; [exact H1|]. split; [exact H2|]. exists rest.
  split; [rewrite Hh, <- !app_assoc; reflexivity|].
  split.
  - change (count is_send_error rest = 0).
    apply pool_event_count; [|exact Hrest]. intros []; cbn; congruence.
  - intros Hnone. rewrite Hnone in Hput. destruct Hput as (-> & _ & ->).
    split; reflexivity.
Qed.

(** *** The running program, step by step *)

Lemma executed_app (h1 h2 : list Event) :
  executed (h1 ++ h2) = executed h1 ++ executed h2.
Proof. unfold executed. apply flat_map_app. Qed.

Lemma outputs_app (h1 h2 : list Event) :
  outputs (h1 ++ h2) = outputs h1 ++ outputs h2.
Proof. unfold outputs. apply flat_map_app. Qed.

Lemma pool_events_quiet (evs : list Event) :
  Forall (fun ev => pool_event ev = true) evs ->
  executed evs = [] /\ outputs evs = [] /\
  count is_Execute_failure evs = 0 /\ count is_send_error evs = 0.
Proof.
  intros Hevs. repeat split.
  - induction Hevs as [|ev evs Hev _ IH]; [reflexivity|].
    destruct ev; try discriminate Hev; exact IH.
  - induction Hevs as [|ev evs Hev _ IH]; [reflexivity|].
    destruct ev; try discriminate Hev; exact IH.
  - apply pool_event_count; [|exact Hevs]. intros []; cbn; congruence.
  - apply pool_event_count; [|exact Hevs]. intros []; cbn; congruence.
Qed.

Lemma quiet_refl (e : executor) : quiet e e.
Proof. repeat split. Qed.

Lemma quiet_trans (e1 e2 e3 : executor) : quiet e1 e2 -> quiet e2 e3 -> quiet e1 e3.
Proof.
  intros (A1 & A2 & A3 & A4) (B1 & B2 & B3 & B4). repeat split; congruence.
Qed.

Lemma reclaims_quiet (e e' : executor) :
  reclaims e e' ->
  quiet e e' /\
  count is_send_error (history e') = count is_send_error (history e) /\
  errorChannel e' = errorChannel e /\
  goroutines e' = goroutines e.
Proof.
  intros (_ & Ho & He & _ & Hg & _ & _ & evs & Hh & Hevs).
  destruct (pool_events_quiet _ Hevs) as (Q1 & Q2 & Q3 & Q4).
  unfold quiet. rewrite Hh, executed_app, outputs_app, !count_app, Q1, Q2, Q3, Q4.
  rewrite !app_nil_r, !Nat.add_0_r. auto 10.
Qed.

Lemma retires_refl (e : executor) : retires e e.
Proof. exists []. rewrite app_nil_r. auto. Qed.

Lemma Teardown_summary (e e' : executor) (r : Outcome error) :
  Teardown e = (r, e') ->
  (exists err, r = Return err) /\
  quiet e e' /\ retires e e' /\
  count is_send_error (history e') = count is_send_error (history e) /\
  errorChannel e' = errorChannel e /\
  goroutines e' = goroutines e.
Proof.
  intros HT.
  destruct (Teardown_reclaims _ _ _ HT) as (Hr & Hrec).
  destruct (Teardown_ledger _ _ _ HT) as (ws & Hi & _ & Hd & _).
  destruct (reclaims_quiet _ _ Hrec) as (Q & C & E & G).
  split; [exact Hr|]. split; [exact Q|]. split; [exists ws; auto|]. auto.
Qed.

(** The [select], as the running program sees it: it runs no task and starts
    none, it sends the one error of the cancellation and no other, the workers
    it takes from the pool are destroyed, and the task it passes on to line 90
    is the zero value. *)
Lemma select_summary (c : select_case) (e e' : executor) (r : Outcome (option I)) :
  select c e = (r, e') ->
  goroutines e' = goroutines e /\
  quiet e e' /\ retires e e' /\
  (forall msg, r = Return (Some msg) -> msg = zero) /\
  match c with
  | case_input =>
      count is_send_error (history e') = count is_send_error (history e) /\
      errorChannel e' = errorChannel e
  | case_Done =>
      (r = Blocked /\ e' = e) \/
      (r <> Blocked /\ (forall msg, r <> Return (Some msg)) /\
       count is_send_error (history e') = S (count is_send_error (history e)) /\
       length (errorChannel e') = S (length (errorChannel e)))
  end.
Proof.
  destruct c; unfold select, bind.
  - unfold receive_Done.
    destruct (Done_closed (cancelContext e)).
    2:{ intros H; inversion H; subst.
        split; [reflexivity|]. split; [apply quiet_refl|].
        split; [apply retires_refl|]. split; [discriminate|]. left. auto. }
    unfold cancelContext_Err, send_error, Teardown_or_panic, bind.
    cbv beta iota.
    match goal with
    | |- context [Teardown ?e1] => destruct (Teardown e1) as [r1 e2] eqn:HT
    end.
    apply Teardown_summary in HT.
    destruct HT as ([terr ->] & (Q1 & Q2 & Q3 & Q4) & (ws & Hi & Hd) & C & E & G).
    cbn -[count] in Q1, Q2, Q3, Q4, Hi, Hd, C, E, G.
    rewrite executed_app in Q1. rewrite outputs_app in Q2.
    rewrite count_app in Q3, C. rewrite destroyed_app in Hd.
    cbn in Q1, Q2, Q3, C, Hd. rewrite ?app_nil_r, ?Nat.add_0_r in *.
    assert (Hsum :
              goroutines e2 = goroutines e /\ quiet e e2 /\ retires e e2 /\
              count is_send_error (history e2) = S (count is_send_error (history e)) /\
              length (errorChannel e2) = S (length (errorChannel e))).
    { split; [exact G|]. split; [repeat split; assumption|].
      split; [exists ws; auto|]. split; [rewrite C; unfold count; cbn; lia|].
      rewrite E, length_app. cbn. lia. }
    destruct Hsum as (S1 & S2 & S3 & S4 & S5).
    destruct terr; intros H; inversion H; subst;
      (split; [exact S1|]); (split; [exact S2|]); (split; [exact S3|]);
      (split; [discriminate|]); right;
      (split; [discriminate|]); (split; [discriminate|]); auto.
  - unfold receive_input, receive.
    destruct (queue (inputChannel e)) as [|m rest] eqn:Hq.
    + destruct (closed (inputChannel e)).
      * intros H; inversion H; subst. cbn -[count].
        split; [reflexivity|].
        split; [unfold quiet; cbn -[count];
                rewrite executed_app, outputs_app, count_app; cbn;
                rewrite !app_nil_r, Nat.add_0_r; auto|].
        split; [exists []; cbn; rewrite destroyed_app; cbn;
                rewrite app_nil_r; auto|].
        split; [intros msg Hm; inversion Hm; reflexivity|].
        rewrite count_app. cbn. rewrite Nat.add_0_r. auto.
      * intros H; inversion H; subst.
        split; [reflexivity|]. split; [apply quiet_refl|].
        split; [apply retires_refl|]. split; [discriminate|]. auto.
    + unfold Teardown_or_panic, bind.
      match goal with
      | |- context [Teardown ?e1] => destruct (Teardown e1) as [r1 e2] eqn:HT
      end.
      apply Teardown_summary in HT.
      destruct HT as ([terr ->] & (Q1 & Q2 & Q3 & Q4) & (ws & Hi & Hd) & C & E & G).
      cbn -[count] in Q1, Q2, Q3, Q4, Hi, Hd, C, E, G.
      rewrite executed_app in Q1. rewrite outputs_app in Q2.
      rewrite count_app in Q3, C. rewrite destroyed_app in Hd.
      cbn in Q1, Q2, Q3, C, Hd. rewrite ?app_nil_r, ?Nat.add_0_r in *.
      assert (Hsum :
                goroutines e2 = goroutines e /\ quiet e e2 /\ retires e e2 /\
                count is_send_error (history e2) = count is_send_error (history e) /\
                errorChannel e2 = errorChannel e).
      { split; [exact G|]. split; [repeat split; assumption|].
        split; [exists ws; auto|]. auto. }
      destruct Hsum as (S1 & S2 & S3 & S4 & S5).
      destruct terr; intros H; inversion H; subst;
        (split; [exact S1|]); (split; [exact S2|]); (split; [exact S3|]);
        (split; [discriminate|]); auto.
Qed.

Lemma dispatch_summary (msg : I) (e e' : executor) (r : Outcome unit) :
  dispatch msg e = (r, e') ->
  match pool.items (workerPool e) with
  | [] => r = Blocked /\ e' = e
  | w :: rest =>
      r = Return tt /\
      pool.items (workerPool e') = rest /\
      goroutines e' =
        goroutines e ++
        [{| task_msg := msg; task_worker := w; task_stage := executing |}] /\
      history e' = history e ++ [ev_Get w; ev_go msg w] /\
      outputChannel e' = outputChannel e /\
      errorChannel e' = errorChannel e
  end.
Proof.
  unfold dispatch, bind, workerPool_Get, pool.Get.
  destruct (pool.items (workerPool e)) as [|w rest];
    intros H; inversion H; subst; cbn; rewrite <- ?app_assoc; auto 10.
Qed.

Lemma return_worker_summary (w : W) (e e' : executor) (r : Outcome unit) :
  return_worker w e = (r, e') ->
  goroutines e' = goroutines e /\
  quiet e e' /\
  count is_send_error (history e') = count is_send_error (history e) /\
  errorChannel e' = errorChannel e /\
  ((r = Return tt /\
    pool.items (workerPool e') = pool.items (workerPool e) ++ [w] /\
    destroyed (history e') = destroyed (history e)) \/
   ((exists v, r = Panic v) /\ retires e e')).
Proof.
  unfold return_worker, bind, workerPool_Put.
  destruct (pool.Put w (workerPool e)) as [[perr|] p] eqn:HP.
  - rewrite (Put_failure_keeps_pool _ _ _ _ HP).
    match goal with
    | |- context [Teardown ?e1] => destruct (Teardown e1) as [r1 e2] eqn:HT
    end.
    apply Teardown_summary in HT.
    destruct HT as ([terr ->] & (Q1 & Q2 & Q3 & Q4) & (ws & Hi & Hd) & C & E & G).
    cbn -[count] in Q1, Q2, Q3, Q4, Hi, Hd, C, E, G.
    rewrite executed_app in Q1. rewrite outputs_app in Q2.
    rewrite count_app in Q3, C. rewrite destroyed_app in Hd.
    cbn in Q1, Q2, Q3, C, Hd. rewrite ?app_nil_r, ?Nat.add_0_r in *.
    assert (Hsum :
              goroutines e2 = goroutines e /\ quiet e e2 /\
              count is_send_error (history e2) = count is_send_error (history e) /\
              errorChannel e2 = errorChannel e /\ retires e e2).
    { split; [exact G|]. split; [repeat split; assumption|].
      split; [exact C|]. split; [exact E|]. exists ws; auto. }
    destruct Hsum as (S1 & S2 & S3 & S4 & S5).
    destruct terr; intros H; inversion H; subst;
      repeat (split; [assumption|]); right; eauto.
  - assert (Hp : pool.items p = pool.items (workerPool e) ++ [w]).
    { unfold pool.Put in HP.
      destruct (pool.Put_fault (workerPool e) w); [discriminate HP|].
      destruct (pool.Avail (workerPool e) <? pool.capacity (workerPool e))%N;
        inversion HP; reflexivity. }
    intros H; inversion H; subst. cbn -[count].
    split; [reflexivity|].
    split; [unfold quiet; cbn -[count];
            rewrite executed_app, outputs_app, count_app; cbn;
            rewrite !app_nil_r, Nat.add_0_r; auto|].
    rewrite count_app, destroyed_app. cbn. rewrite app_nil_r, Nat.add_0_r.
    auto 10.
Qed.

Lemma map_replace_nth (k : nat) (t t' : Task) (g : list Task) :
  nth_error g k = Some t ->
  task_worker t' = task_worker t ->
  map task_worker (replace_nth k t' g) = map task_worker g.
Proof.
  revert k. induction g as [|a g IH]; intros [|k] Hk Hw; cbn in *;
    try discriminate.
  - inversion Hk; subst. rewrite Hw. reflexivity.
  - rewrite (IH _ Hk Hw). reflexivity.
Qed.

Lemma map_remove_nth (k : nat) (t : Task) (g : list Task) :
  nth_error g k = Some t ->
  Permutation (map task_worker g)
    (task_worker t :: map task_worker (remove_nth k g)).
Proof.
  revert k. induction g as [|a g IH]; intros [|k] Hk; cbn in *;
    try discriminate.
  - inversion Hk; subst. apply Permutation_refl.
  - eapply perm_trans; [apply perm_skip, (IH _ Hk)|]. apply perm_swap.
Qed.

Lemma retires_whereabouts (i i' h d d' : list W) (ws : list W) :
  i = ws ++ i' -> d' = d ++ ws ->
  Permutation (i ++ h ++ d) (i' ++ h ++ d').
Proof.
  intros -> ->. rewrite <- app_assoc.
  eapply perm_trans; [apply Permutation_app_comm|].
  rewrite <- !app_assoc. reflexivity.
Qed.

(** No step makes a worker or loses one: a step moves workers between the
    pool, the task goroutines and [Destroy]. *)
Lemma step_whereabouts (a : Action) (s s' : System) :
  step a s = Some s' -> Permutation (whereabouts s) (whereabouts s').
Proof.
  unfold step, whereabouts, held.
  destruct (crashed s); [discriminate|].
  destruct s as [e d cr]; cbn [exec dispatcher crashed].
  destruct a; cbn [step_live Run exec dispatcher crashed].
  - destruct d; try discriminate. stepped; cbn. reflexivity.
  - destruct d; try discriminate.
    destruct (select c e) as [r e1] eqn:Hsel.
    apply select_summary in Hsel.
    destruct Hsel as (Hg & _ & (ws & Hi & Hd) & _).
    assert (Hperm : Permutation
              (pool.items (workerPool e) ++ map task_worker (goroutines e) ++
               destroyed (history e))
              (pool.items (workerPool e1) ++ map task_worker (goroutines e1) ++
               destroyed (history e1))).
    { rewrite Hg. apply (retires_whereabouts _ _ _ _ _ ws Hi Hd). }
    destruct r as [[msg|]| |]; cbn; stepped; cbn; exact Hperm.
  - destruct d; try discriminate.
    destruct (dispatch msg e) as [r e1] eqn:Hd.
    apply dispatch_summary in Hd.
    destruct (pool.items (workerPool e)) as [|w rest].
    + destruct Hd as [-> ->]. discriminate.
    + destruct Hd as (-> & Hi & Hg & Hh & _). cbn.
      stepped; cbn. rewrite Hi, Hg, Hh, map_app, destroyed_app. cbn.
      rewrite app_nil_r, <- !app_assoc. cbn.
      rewrite !app_assoc. apply Permutation_middle.
  - destruct (nth_error (goroutines e) k) as [t|] eqn:Hk; [|discriminate].
    destruct (task_stage t) eqn:Hstage.
    + rewrite execute_task_eq. cbn.
      destruct (snd (Execute (task_worker t) (cancelContext e) (task_msg t)));
        stepped; cbn; rewrite !destroyed_app; cbn; rewrite !app_nil_r;
        (erewrite map_replace_nth; [reflexivity|exact Hk|reflexivity]).
    + destruct (return_worker (task_worker t) e) as [r e1] eqn:Hret.
      apply return_worker_summary in Hret.
      destruct Hret as (Hg & _ & _ & _ & [(-> & Hi & Hd)|([v ->] & ws & Hi & Hd)]).
      * cbn. stepped; cbn -[destroyed]. rewrite Hi, Hd, Hg, <- app_assoc. cbn.
        apply Permutation_app_head.
        apply (Permutation_app_tail (destroyed (history e))
                 (map_remove_nth k t _ Hk)).
      * cbn. stepped; cbn. rewrite Hg.
        apply (retires_whereabouts _ _ _ _ _ ws Hi Hd).
  - destruct (Teardown e) as [r e1] eqn:HT.
    apply Teardown_summary in HT.
    destruct HT as ([terr ->] & _ & (ws & Hi & Hd) & _ & _ & Hg). cbn.
    stepped; cbn. rewrite Hg. apply (retires_whereabouts _ _ _ _ _ ws Hi Hd).
  - destruct (closed (inputChannel e)); [discriminate|]. stepped; cbn. reflexivity.
  - destruct (closed (inputChannel e)); [discriminate|]. stepped; cbn. reflexivity.
  - destruct (ctx_Err (cancelContext e)); [discriminate|]. stepped; cbn. reflexivity.
Qed.

Lemma run_whereabouts (acts : list Action) :
  forall s s', run acts s = Some s' -> Permutation (whereabouts s) (whereabouts s').
Proof.
  induction acts as [|a acts IH]; intros s s' Hrun.
  - inversion Hrun; subst. reflexivity.
  - cbn in Hrun. destruct (step a s) as [s1|] eqn:Hstep; [|discriminate].
    eapply perm_trans; [apply (step_whereabouts _ _ _ Hstep)|].
    apply IH. exact Hrun.
Qed.

(** X11.  In every run of the program the workers are conserved: those available in
    the pool, those held by task goroutines and those handed to [Destroy] are
    together, at any time, a rearrangement of what they were.  So when the
    workers are distinct to begin with, no two task goroutines ever hold the
    same worker, and a worker that a task holds is neither available in the
    pool nor destroyed. *)
Theorem workers_are_conserved (acts : list Action) (s s' : System) :
  run acts s = Some s' ->
  Permutation (whereabouts s) (whereabouts s') /\
  (NoDup (whereabouts s) ->
   NoDup (held s') /\
   forall w, In w (held s') ->
     ~ In w (pool.items (workerPool (exec s'))) /\
     ~ In w (destroyed (history (exec s')))).
Proof.
  intros Hrun. pose proof (run_whereabouts _ _ _ Hrun) as Hperm.
  split; [exact Hperm|]. intros Hnd.
  pose proof (Permutation_NoDup Hperm Hnd) as Hnd'. unfold whereabouts in Hnd'.
  split.
  - apply NoDup_app_remove_l in Hnd'. apply NoDup_app_remove_r in Hnd'.
    exact Hnd'.
  - intros w Hw. split; intros Hin.
    + revert Hnd' Hw Hin. generalize (pool.items (workerPool (exec s'))).
      generalize (held s'). generalize (destroyed (history (exec s'))).
      intros D H Is Hnd' Hw Hin.
      apply in_split in Hin. destruct Hin as (l1 & l2 & ->).
      rewrite <- app_assoc in Hnd'. cbn in Hnd'.
      apply NoDup_remove_2 in Hnd'. apply Hnd'.
      apply in_or_app. right. apply in_or_app. right.
      apply in_or_app. left. exact Hw.
    + apply NoDup_app_remove_l in Hnd'.
      revert Hnd' Hw Hin. generalize (held s').
      generalize (destroyed (history (exec s'))).
      intros D H Hnd' Hw Hin.
      apply in_split in Hw. destruct Hw as (l1 & l2 & ->).
      rewrite <- app_assoc in Hnd'. cbn in Hnd'.
      apply NoDup_remove_2 in Hnd'. apply Hnd'.
      apply in_or_app. right. apply in_or_app. right. exact Hin.
Qed.

Lemma Forall_replace_nth {A : Type} (P : A -> Prop) (k : nat) (a : A) (l : list A) :
  Forall P l -> P a -> Forall P (replace_nth k a l).
Proof.
  intros Hl Ha. revert k. induction Hl as [|b l Hb Hl IH]; intros [|k]; cbn;
    try constructor; auto.
Qed.

Lemma Forall_remove_nth {A : Type} (P : A -> Prop) (k : nat) (l : list A) :
  Forall P l -> Forall P (remove_nth k l).
Proof.
  intros Hl. revert k. induction Hl as [|b l Hb Hl IH]; intros [|k]; cbn;
    try constructor; auto.
Qed.

Lemma Forall_nth_error {A : Type} (P : A -> Prop) (k : nat) (a : A) (l : list A) :
  Forall P l -> nth_error l k = Some a -> P a.
Proof.
  intros Hl Hk. rewrite Forall_forall in Hl. apply Hl.
  eapply nth_error_In. exact Hk.
Qed.

Lemma step_only_zero_tasks (a : Action) (s s' : System) :
  step a s = Some s' -> only_zero_tasks s -> only_zero_tasks s'.
Proof.
  unfold step, only_zero_tasks.
  destruct (crashed s); [discriminate|].
  destruct s as [e d cr]; cbn [exec dispatcher crashed].
  destruct a; cbn [step_live Run exec dispatcher crashed].
  - destruct d; try discriminate. stepped; cbn -[executed].
    intros (Hg & Hx & _). repeat split; auto. discriminate.
  - destruct d; try discriminate.
    destruct (select c e) as [r e1] eqn:Hsel.
    apply select_summary in Hsel.
    destruct Hsel as (Hg & (Q1 & _) & _ & Hz & _).
    destruct r as [[msg|]| |]; cbn; stepped; cbn -[executed]; rewrite Hg, Q1;
      intros (Hgs & Hx & Hd); repeat split; auto; try discriminate.
    intros m Hm. injection Hm as <-. apply Hz. reflexivity.
  - destruct d; try discriminate.
    destruct (dispatch msg e) as [r e1] eqn:Hd.
    apply dispatch_summary in Hd.
    destruct (pool.items (workerPool e)) as [|w rest].
    + destruct Hd as [-> ->]. discriminate.
    + destruct Hd as (-> & _ & Hg & Hh & _). cbn.
      stepped; cbn -[executed]. rewrite Hg, Hh, executed_app. cbn. rewrite app_nil_r.
      intros (Hgs & Hx & Hm). repeat split; auto; [|discriminate].
      apply Forall_app. split; [exact Hgs|]. constructor; [|constructor].
      cbn. apply Hm. reflexivity.
  - destruct (nth_error (goroutines e) k) as [t|] eqn:Hk; [|discriminate].
    destruct (task_stage t) eqn:Hstage.
    + rewrite execute_task_eq. cbn.
      destruct (snd (Execute (task_worker t) (cancelContext e) (task_msg t)));
        stepped; cbn -[executed]; rewrite !executed_app; cbn;
        rewrite !app_nil_r; intros (Hgs & Hx & Hm);
        pose proof (Forall_nth_error _ _ _ _ Hgs Hk) as Ht;
        (split; [apply Forall_replace_nth; [exact Hgs|exact Ht]|]);
        (split; [apply Forall_app; split; [exact Hx|repeat constructor; exact Ht]
                |exact Hm]).
    + destruct (return_worker (task_worker t) e) as [r e1] eqn:Hret.
      apply return_worker_summary in Hret.
      destruct Hret as (Hg & (Q1 & _) & _ & _ & [(-> & _)|([v ->] & _)]);
        cbn; stepped; cbn -[executed]; rewrite ?Hg, Q1; intros (Hgs & Hx & Hm);
        repeat split; auto. apply Forall_remove_nth. exact Hgs.
  - destruct (Teardown e) as [r e1] eqn:HT.
    apply Teardown_summary in HT.
    destruct HT as ([terr ->] & (Q1 & _) & _ & _ & _ & Hg). cbn.
    stepped; cbn -[executed]. rewrite Hg, Q1. auto.
  - destruct (closed (inputChannel e)); [discriminate|]. stepped; cbn -[executed]. auto.
  - destruct (closed (inputChannel e)); [discriminate|]. stepped; cbn -[executed]. auto.
  - destruct (ctx_Err (cancelContext e)); [discriminate|]. stepped; cbn -[executed]. auto.
Qed.

Lemma run_only_zero_tasks (acts : list Action) :
  forall s s', run acts s = Some s' -> only_zero_tasks s -> only_zero_tasks s'.
Proof.
  induction acts as [|a acts IH]; intros s s' Hrun Hinv.
  - inversion Hrun; subst. exact Hinv.
  - cbn in Hrun. destruct (step a s) as [s1|] eqn:Hstep; [|discriminate].
    apply (IH _ _ Hrun). apply (step_only_zero_tasks _ _ _ Hstep Hinv).
Qed.

Lemma populating_quiet (evs : list Event) :
  Forall (fun ev => populating ev = true) evs ->
  executed evs = [] /\ outputs evs = [] /\
  count is_Execute_failure evs = 0 /\ count is_send_error evs = 0.
Proof.
  intros Hevs. repeat split.
  - induction Hevs as [|ev evs Hev _ IH]; [reflexivity|].
    destruct ev; try discriminate Hev; exact IH.
  - induction Hevs as [|ev evs Hev _ IH]; [reflexivity|].
    destruct ev; try discriminate Hev; exact IH.
  - apply count_none. induction Hevs as [|ev evs Hev _ IH]; constructor; auto.
    destruct ev; try discriminate Hev; reflexivity.
  - apply count_none. induction Hevs as [|ev evs Hev _ IH]; constructor; auto.
    destruct ev; try discriminate Hev; reflexivity.
Qed.

(** What the executor that [New] returns starts from. *)
Lemma New_start
    (input : chan I) (output : list O) (errors : list error) (ctx : Context)
    (f : FState) (workerCount : N) (e0 : executor) :
  fst (New input output errors ctx f workerCount) = Return (Some e0, None) ->
  goroutines e0 = [] /\ outputChannel e0 = output /\ errorChannel e0 = errors /\
  Forall (fun ev => populating ev = true) (history e0).
Proof.
  unfold New, bind.
  match goal with
  | |- context [populate ?n ?e] => destruct (populate n e) as [r e1] eqn:Hpop
  end.
  apply populate_ledger in Hpop.
  destruct Hpop as (_ & _ & H2 & H3 & _ & H5 & evs & Hh & _ & Hf & _).
  cbn in H2, H3, H5, Hh. subst evs.
  destruct r as [[er|]| |]; cbn; intros H; try discriminate H.
  injection H as <-. auto.
Qed.

(** X12.  In every run from an executor that [New] returned, [Execute] is only ever
    called on the zero value of the input type, and only the zero value is in
    the hands of a task goroutine: a task that was sent on the input channel
    never reaches a worker. *)
Theorem only_the_zero_task_is_executed
    (input : chan I) (output : list O) (errors : list error) (ctx : Context)
    (f : FState) (workerCount : N) (e0 : executor)
    (acts : list Action) (s : System) :
  fst (New input output errors ctx f workerCount) = Return (Some e0, None) ->
  run acts (start e0) = Some s ->
  Forall (fun msg => msg = zero) (executed (history (exec s))) /\
  Forall (fun t => task_msg t = zero) (goroutines (exec s)).
Proof.
  intros HNew Hrun. apply New_start in HNew.
  destruct HNew as (Hg & _ & _ & Hpop).
  destruct (populating_quiet _ Hpop) as (Hx & _).
  assert (Hinv : only_zero_tasks (start e0)).
  { unfold only_zero_tasks. cbn. rewrite Hg, Hx.
    repeat split; try constructor. discriminate. }
  destruct (run_only_zero_tasks _ _ _ Hrun Hinv) as (H1 & H2 & _). auto.
Qed.











(** *** The dispatch loop on its two kinds of input *)

Lemma dispatch_inputChannel (msg : I) (e e' : executor) (r : Outcome unit) :
  dispatch msg e = (r, e') -> inputChannel e' = inputChannel e.
Proof.
  unfold dispatch, bind, workerPool_Get.
  destruct (pool.Get (workerPool e)) as [[w p]|];
    intros H; inversion H; reflexivity.
Qed.

(** X15.  On a closed and drained input channel the loop does not end and does not
    tear down.  Each iteration that takes the input case starts a task on the
    zero value: [n] such iterations put the first [n] available workers, in
    pool order, to work on it and go round again; when fewer than [n] workers
    are available the loop blocks in [Get], with every worker at work. *)
Theorem Run_loop_on_closed_input (n : nat) :
  forall e,
    queue (inputChannel e) = [] ->
    closed (inputChannel e) = true ->
    fst (Run_loop (repeat case_input n) e) =
      (if n <=? length (pool.items (workerPool e))
       then Return loop_continue else Blocked) /\
    goroutines (snd (Run_loop (repeat case_input n) e)) =
      goroutines e ++ zero_tasks (firstn n (pool.items (workerPool e))) /\
    pool.items (workerPool (snd (Run_loop (repeat case_input n) e))) =
      skipn n (pool.items (workerPool e)) /\
    inputChannel (snd (Run_loop (repeat case_input n) e)) = inputChannel e /\
    count is_PoolTeardown (history (snd (Run_loop (repeat case_input n) e))) =
      count is_PoolTeardown (history e) /\
    destroyed (history (snd (Run_loop (repeat case_input n) e))) =
      destroyed (history e).
Proof.
  induction n as [|n IH]; intros e Hq Hc.
  - cbn. rewrite app_nil_r. auto 10.
  - set (e1 := log (ev_receive zero false) (set_inputChannel (inputChannel e) e)).
    assert (Heq : Run_loop (repeat case_input (S n)) e =
                  match dispatch zero e1 with
                  | (Return _, e2) => Run_loop (repeat case_input n) e2
                  | (Panic v, e2) => (Panic v, e2)
                  | (Blocked, e2) => (Blocked, e2)
                  end).
    { cbn [repeat Run_loop]. unfold bind at 1.
      rewrite (proj2 (select_on_closed_input e Hq Hc)). fold e1. unfold bind.
      destruct (dispatch zero e1) as [[[]| |] e2]; reflexivity. }
    rewrite Heq. clear Heq.
    destruct (dispatch zero e1) as [r e2] eqn:Hd.
    pose proof (dispatch_inputChannel _ _ _ _ Hd) as Hin.
    apply dispatch_summary in Hd.
    change (pool.items (workerPool e1)) with (pool.items (workerPool e)) in Hd.
    change (inputChannel e1) with (inputChannel e) in Hin.
    change (goroutines e1) with (goroutines e) in Hd.
    change (history e1) with (history e ++ [ev_receive zero false]) in Hd.
    destruct (pool.items (workerPool e)) as [|w rest] eqn:Hit.
    + destruct Hd as [-> ->]. subst e1. cbn -[count].
      rewrite app_nil_r, count_app, destroyed_app. cbn.
      rewrite app_nil_r, Nat.add_0_r. auto 10.
    + destruct Hd as (-> & Hi & Hg & Hh & _). cbn [ret fst snd].
      destruct (IH e2) as (R1 & R2 & R3 & R4 & R5 & R6);
        [rewrite Hin; exact Hq|rewrite Hin; exact Hc|].
      rewrite Hi in R1, R2, R3. rewrite Hg in R2. rewrite Hh in R5, R6.
      cbn -[count] in R2, R5, R6.
      rewrite !count_app in R5. rewrite !destroyed_app in R6.
      cbn in R5, R6. rewrite !Nat.add_0_r in R5. rewrite !app_nil_r in R6.
      destruct (Run_loop (repeat case_input n) e2) as [r3 e3].
      cbn [fst snd] in *. subst r3.
      split; [reflexivity|]. split; [rewrite R2, <- app_assoc; reflexivity|].
      split; [exact R3|]. split; [congruence|]. split; [exact R5|exact R6].
Qed.

(** X16.  A task that the loop receives is lost.  The iteration takes it off the
    input channel, runs [Teardown] and ends the loop (by returning, or by a
    panic if [Teardown] failed), whatever cases could be picked next: no
    goroutine is started, [Execute] is not called, and nothing is sent on
    either stream. *)
Theorem received_task_ends_the_loop
    (e : executor) (msg : I) (rest : list I) (picks : list select_case) :
  queue (inputChannel e) = msg :: rest ->
  exists terr,
    fst (Run_loop (case_input :: picks) e) =
      match terr with
      | Some _ => Panic (Errorf "failed to teardown executor: %w" terr)
      | None => Return loop_return
      end /\
    snd (Run_loop (case_input :: picks) e) =
      snd (Teardown
             (log (ev_receive msg true)
                (set_inputChannel
                   {| queue := rest; closed := closed (inputChannel e) |} e))) /\
    queue (inputChannel (snd (Run_loop (case_input :: picks) e))) = rest /\
    goroutines (snd (Run_loop (case_input :: picks) e)) = goroutines e /\
    executed (history (snd (Run_loop (case_input :: picks) e))) =
      executed (history e) /\
    outputChannel (snd (Run_loop (case_input :: picks) e)) = outputChannel e /\
    errorChannel (snd (Run_loop (case_input :: picks) e)) = errorChannel e.
Proof.
  intros Hq.
  destruct (select_on_received_task e msg rest Hq) as (terr & e2 & HT & Hit & _).
  assert (Hrun : Run_loop (case_input :: picks) e =
                 (match terr with
                  | Some _ => Panic (Errorf "failed to teardown executor: %w" terr)
                  | None => Return loop_return
                  end, e2)).
  { cbn [Run_loop]. unfold bind at 1. rewrite Hit. destruct terr; reflexivity. }
  rewrite Hrun, HT. cbn [fst snd].
  destruct (Teardown_reclaims _ _ _ HT) as (_ & R1 & R2 & R3 & _ & R5 & _).
  destruct (Teardown_summary _ _ _ HT) as (_ & (Q1 & _) & _).
  cbn in R1, R2, R3, R5, Q1. rewrite executed_app in Q1. cbn in Q1.
  rewrite app_nil_r in Q1.
  exists terr. split; [reflexivity|]. split; [reflexivity|].
  split; [rewrite R1; reflexivity|]. auto.
Qed.
End Executor.

(** ** The executor at work on the sample collaborators *)

#[local] Existing Instance Demo.adder.
#[local] Existing Instance Demo.zero_nat.
#[local] Existing Instance Demo.steady.
#[local] Existing Instance Demo.sound.

(** An executor on the sample factory, with [n] workers numbered from 0. *)
Notation sample input ctx n :=
  (constructed (O := nat) (factory := Demo.steady) input ctx (0 : nat) n).

(** A construction that fails: three workers are asked for and the second
    [Create] fails.  [New] returns that error and no executor, having created
    one worker and put it in the pool. *)
Lemma New_Create_failure_second_of_three :
  fst (New (factory := Demo.fails_on_second) (faults := Demo.sound)
         Demo.open_empty (@nil nat) [] Demo.background (0 : nat) 3)
  = Return (None, Some (errors_New "out of workers")) /\
  exists calls,
    history (snd (New (factory := Demo.fails_on_second) (faults := Demo.sound)
                    Demo.open_empty (@nil nat) [] Demo.background (0 : nat) 3))
    = calls ++ [ev_Create 0 (Some (errors_New "out of workers"))].
Proof.
  apply (New_Create_failure (factory := Demo.fails_on_second)
           (faults := Demo.sound)).
  vm_compute. right. right. left. reflexivity.
Defined.

(** C2, first half, fails on the code.  With two workers available and no
    failure anywhere, [Teardown] destroys worker 0 only: after the first pass
    the counter is 1 and [Avail] is 1, so the loop ends.  Worker 1 stays in
    the pool, which is then torn down, and [Teardown] returns nil. *)
Theorem Teardown_leaves_a_worker_undestroyed :
  pool.items (workerPool (sample Demo.open_empty Demo.background 2)) = [0; 1] /\
  fst (Teardown (sample Demo.open_empty Demo.background 2)) = Return None /\
  history (snd (Teardown (sample Demo.open_empty Demo.background 2))) =
    history (sample Demo.open_empty Demo.background 2) ++
    [ev_Get 0; ev_Destroy 0 None; ev_PoolTeardown None] /\
  destroyed (history (snd (Teardown (sample Demo.open_empty Demo.background 2))))
    = [0] /\
  pool.items
    (workerPool (snd (Teardown (sample Demo.open_empty Demo.background 2))))
    = [1].
Proof. vm_compute. repeat split. Qed.

(** A run that ends with a task goroutine about to return its worker to a
    pool that was torn down under it: the loop is started on one worker, the
    input channel is closed, the loop starts a task on worker 0, the context
    is cancelled, the loop tears down and returns, and the task finishes
    [Execute].  [F] is the pool's way of failing. *)
Notation overtaken F :=
  (reached (faults := F)
     [act_Run; env_close; act_select case_input; act_dispatch;
      env_cancel (errors_New "context canceled"); act_select case_Done;
      act_task 0]
     (constructed (O := nat) (factory := Demo.steady) (faults := F)
        Demo.open_empty Demo.background (0 : nat) 1)).

(** C3 as stated fails.  The pool was torn down, so the [Put] of worker 0
    fails; the [Teardown] that follows fails as well, on the pool; the panic
    that kills the process carries the error of [Teardown] and not the one
    [Put] returned. *)
Lemma return_worker_panic_is_about_Teardown :
  nth_error (goroutines (exec (overtaken Demo.shuts_once))) 0 =
    Some {| task_msg := 0; task_worker := 0; task_stage := deferred |} /\
  fst (pool.Put (faults := Demo.shuts_once) 0
         (workerPool (exec (overtaken Demo.shuts_once))))
    = Some (errors_New "pool is torn down") /\
  option_map crashed
    (step (faults := Demo.shuts_once) (act_task 0) (overtaken Demo.shuts_once))
    = Some (Some (Some
        (fmt_Errorf "failed to teardown executor: %w"
           (Some (fmt_Errorf "failed to teardown worker pool: %w"
                    (Some (errors_New "pool is already torn down"))))))) /\
  ~ carries (errors_New "pool is torn down")
      (fmt_Errorf "failed to teardown executor: %w"
         (Some (fmt_Errorf "failed to teardown worker pool: %w"
                  (Some (errors_New "pool is already torn down"))))).
Proof.
  split; [reflexivity|]. split; [reflexivity|]. split; [reflexivity|].
  cbn. intros [H|[H|[H|[]]]]; discriminate H.
Qed.

(** The deferred function in the same state: [Put] fails, [Teardown] runs and
    fails, and the panic carries the error of [Teardown]. *)
Lemma return_worker_failure_on_sample :
  fst (pool.Put (faults := Demo.shuts_once) 0
         (workerPool (exec (overtaken Demo.shuts_once))))
    = Some (errors_New "pool is torn down") /\
  exists terr e1 e2 v,
    workerPool_Put (faults := Demo.shuts_once) 0
      (exec (overtaken Demo.shuts_once))
      = (Return (Some (errors_New "pool is torn down")), e1) /\
    history e1 =
      history (exec (overtaken Demo.shuts_once)) ++
      [ev_Put 0 (Some (errors_New "pool is torn down"))] /\
    Teardown (faults := Demo.shuts_once) e1 = (Return terr, e2) /\
    return_worker (faults := Demo.shuts_once) 0
      (exec (overtaken Demo.shuts_once)) = (Panic (Some v), e2) /\
    (forall te, terr = Some te ->
       v = fmt_Errorf "failed to teardown executor: %w" (Some te) /\
       carries te v).
Proof.
  split; [reflexivity|].
  apply (return_worker_failure_is_fatal (faults := Demo.shuts_once)
           0 (exec (overtaken Demo.shuts_once))
           (errors_New "pool is torn down")).
  reflexivity.
Defined.

(** The other way in which the panic misses the error of [Put]: the same run
    on a pool that can be torn down again.  [Put] fails and [Teardown]
    succeeds; the operand of [%w] is then the nil that [Teardown] returned.
    The error of [Put] is in the history and not in the panic. *)
Lemma return_worker_panic_wraps_nil :
  fst (pool.Put (faults := Demo.shuts) 0
         (workerPool (exec (overtaken Demo.shuts))))
    = Some (errors_New "pool is torn down") /\
  option_map crashed
    (step (faults := Demo.shuts) (act_task 0) (overtaken Demo.shuts))
    = Some (Some (Some
        (fmt_Errorf "failed to put worker back into pool: %w" None))) /\
  option_map
    (fun s => existsb is_Put_failure (history (exec s)))
    (step (faults := Demo.shuts) (act_task 0) (overtaken Demo.shuts))
    = Some true /\
  ~ carries (errors_New "pool is torn down")
      (fmt_Errorf "failed to put worker back into pool: %w" None).
Proof.
  split; [reflexivity|]. split; [reflexivity|]. split; [reflexivity|].
  cbn. intros [H|[]]. discriminate H.
Qed.

(** C1 fails on the code, both ways.  On a closed input channel the loop
    receives the zero value, borrows worker 0 and starts a task on it, with no
    teardown, and goes round again.  On an open channel that holds task 5 the
    loop receives it, tears down and returns: no task is started. *)
Theorem Run_loop_inverts_the_closed_test :
  Run_loop [case_input]
    (sample Demo.closed_empty Demo.background 1)
  = (Return loop_continue,
     snd (Run_loop [case_input]
            (sample Demo.closed_empty Demo.background 1))) /\
  history (snd (Run_loop [case_input]
                  (sample Demo.closed_empty Demo.background 1)))
  = history (sample Demo.closed_empty Demo.background 1) ++
    [ev_receive 0 false; ev_Get 0; ev_go 0 0] /\
  Run_loop [case_input]
    (sample {| queue := [5]; closed := false |} Demo.background 1)
  = (Return loop_return,
     snd (Run_loop [case_input]
            (sample {| queue := [5]; closed := false |} Demo.background 1))) /\
  history (snd (Run_loop [case_input]
                  (sample {| queue := [5]; closed := false |} Demo.background 1)))
  = history (sample {| queue := [5]; closed := false |} Demo.background 1) ++
    [ev_receive 5 true; ev_Get 0; ev_Destroy 0 None; ev_PoolTeardown None].
Proof. vm_compute. repeat split. Qed.


(** The sample executor with one worker, after that worker was borrowed. *)
Notation lent :=
  (snd (workerPool_Get (sample Demo.open_empty Demo.background 1))).

(** A task that fails on the sample executor: worker 0 rejects task 0; the
    error is sent and the worker is put back. *)
Lemma task_error_on_sample :
  Execute 0 (cancelContext lent) 0 = (0, Some (errors_New "empty task")) /\
  errorChannel (snd (task 0 0 lent)) =
    errorChannel lent ++ [Some (errors_New "empty task")] /\
  outputChannel (snd (task 0 0 lent)) = outputChannel lent /\
  exists rest,
    history (snd (task 0 0 lent)) =
      history lent ++
      ev_Execute 0 0 0 (Some (errors_New "empty task")) ::
      ev_send_error (Some (errors_New "empty task")) ::
      ev_Put 0 (fst (pool.Put 0 (workerPool lent))) :: rest /\
    count is_send_output
      (ev_Execute 0 0 0 (Some (errors_New "empty task")) ::
       ev_send_error (Some (errors_New "empty task")) ::
       ev_Put 0 (fst (pool.Put 0 (workerPool lent))) :: rest) = 0 /\
    (fst (pool.Put 0 (workerPool lent)) = None ->
     fst (task 0 0 lent) = Return tt /\
     pool.items (workerPool (snd (task 0 0 lent))) =
       pool.items (workerPool lent) ++ [0]).
Proof.
  split; [reflexivity|].
  apply (task_error_goes_to_error_stream 0 0 lent 0 (errors_New "empty task")).
  reflexivity.
Defined.

(** A schedule for a pool of two workers: the loop is started and starts two
    tasks; it then holds a third task at line 90. *)
Notation two_tasks_and_a_third :=
  [act_Run; env_close;
   act_select case_input; act_dispatch;
   act_select case_input; act_dispatch;
   act_select case_input].

(** Capacity 2: with two tasks inside [Execute] the dispatcher holds the third
    task and cannot start it. *)
Lemma at_most_capacity_on_sample :
  exists s,
    fst (New (factory := Demo.steady) Demo.open_empty (@nil nat) []
           Demo.background (0 : nat) 2)
      = Return (Some (sample Demo.open_empty Demo.background 2), None) /\
    run two_tasks_and_a_third
      (start (sample Demo.open_empty Demo.background 2)) = Some s /\
    executing_now s = 2 /\
    dispatcher s = at_Get 0 /\
    pool.capacity (workerPool (exec s)) = uint32 2 /\
    executing_now s <= N.to_nat (pool.capacity (workerPool (exec s))) /\
    borrowed s + available s <= N.to_nat (pool.capacity (workerPool (exec s))) /\
    (borrowed s = N.to_nat (pool.capacity (workerPool (exec s))) ->
     step act_dispatch s = None) /\
    (forall a s',
       step a s = Some s' ->
       borrowed s' < borrowed s ->
       exists k t,
         a = act_task k /\
         nth_error (goroutines (exec s)) k = Some t /\
         task_stage t = deferred /\
         pool.items (workerPool (exec s')) =
           pool.items (workerPool (exec s)) ++ [task_worker t]).
Proof.
  eexists. split; [reflexivity|]. split; [cbv; reflexivity|].
  split; [reflexivity|]. split; [reflexivity|].
  apply (at_most_capacity_executing (factory := Demo.steady)
           Demo.open_empty (@nil nat) [] Demo.background (0 : nat) 2
           (sample Demo.open_empty Demo.background 2) two_tasks_and_a_third);
    reflexivity.
Defined.

(** ** Further properties on the sample collaborators *)

(** A construction in which nothing fails: three workers, numbered from 0. *)
Lemma New_populates_on_sample :
  exists e,
    New (factory := Demo.steady) Demo.open_empty (@nil nat) []
      Demo.background (0 : nat) 3 = (Return (Some e, None), e) /\
    length (pool.items (workerPool e)) = N.to_nat 3 /\
    pool.capacity (workerPool e) = 3%N /\
    history e = populate_calls (pool.items (workerPool e)) /\
    workers_created (history e) = pool.items (workerPool e).
Proof.
  apply (New_populates_the_pool (factory := Demo.steady)
           Demo.open_empty (@nil nat) [] Demo.background (0 : nat) 3).
  - intros f'. reflexivity.
  - intros p w. reflexivity.
  - reflexivity.
Defined.

(** A construction in which the pool refuses the second worker. *)
Lemma New_Put_failure_on_sample :
  fst (New (factory := Demo.steady) (faults := Demo.refuses_one)
         Demo.open_empty (@nil nat) [] Demo.background (0 : nat) 3)
  = Return (None, Some (errors_New "worker refused")) /\
  exists calls,
    history (snd (New (factory := Demo.steady) (faults := Demo.refuses_one)
                    Demo.open_empty (@nil nat) [] Demo.background (0 : nat) 3))
    = calls ++ [ev_Create 1 None; ev_Put 1 (Some (errors_New "worker refused"))] /\
    put_back
      (history (snd (New (factory := Demo.steady) (faults := Demo.refuses_one)
                       Demo.open_empty (@nil nat) [] Demo.background (0 : nat) 3)))
    = put_back calls.
Proof.
  apply (New_Put_failure (factory := Demo.steady) (faults := Demo.refuses_one)).
  vm_compute. right. right. right. left. reflexivity.
Defined.

(** A [Teardown] in which nothing fails. *)
Lemma Teardown_nil_on_sample :
  pool.torn_down
    (workerPool (snd (Teardown (sample Demo.open_empty Demo.background 2))))
    = true /\
  exists calls,
    history (snd (Teardown (sample Demo.open_empty Demo.background 2))) =
      history (sample Demo.open_empty Demo.background 2) ++
      calls ++ [ev_PoolTeardown None] /\
    Forall (fun ev => is_failure ev = false) calls.
Proof.
  apply (Teardown_nil_result (sample Demo.open_empty Demo.background 2)).
  reflexivity.
Defined.

(** An executor on a pool that cannot be torn down. *)
Notation rooted :=
  (constructed (O := nat) (factory := Demo.steady) (faults := Demo.stays)
     Demo.open_empty Demo.background (0 : nat) 2).

(** A [Teardown] that fails on the pool. *)
Lemma Teardown_error_on_sample :
  pool.torn_down (workerPool (snd (Teardown (faults := Demo.stays) rooted))) =
    pool.torn_down (workerPool rooted) /\
  exists cause calls,
    carries cause
      (fmt_Errorf "failed to teardown worker pool: %w"
         (Some (errors_New "pool is in use"))) /\
    Forall (fun ev => is_failure ev = false) calls /\
    ((exists w,
        history (snd (Teardown (faults := Demo.stays) rooted)) =
          history rooted ++ calls ++ [ev_Destroy w (Some cause)] /\
        fmt_Errorf "failed to teardown worker pool: %w"
          (Some (errors_New "pool is in use")) =
        fmt_Errorf "failed to destroy worker: %w" (Some cause)) \/
     (history (snd (Teardown (faults := Demo.stays) rooted)) =
        history rooted ++ calls ++ [ev_PoolTeardown (Some cause)] /\
      fmt_Errorf "failed to teardown worker pool: %w"
        (Some (errors_New "pool is in use")) =
      fmt_Errorf "failed to teardown worker pool: %w" (Some cause))).
Proof.
  apply (Teardown_error_result (faults := Demo.stays) rooted).
  reflexivity.
Defined.

(** Five available workers: [Teardown] destroys three of them. *)
Lemma Teardown_takes_half_on_sample :
  pool.items
    (workerPool (snd (Teardown (sample Demo.open_empty Demo.background 5))))
    = [3; 4] /\
  destroyed (history (snd (Teardown (sample Demo.open_empty Demo.background 5))))
    = destroyed (history (sample Demo.open_empty Demo.background 5)) ++ [0; 1; 2] /\
  exists perr,
    history (snd (Teardown (sample Demo.open_empty Demo.background 5))) =
      history (sample Demo.open_empty Demo.background 5) ++
      destroy_calls [0; 1; 2] ++ [ev_PoolTeardown perr].
Proof.
  exact (Teardown_takes_half (sample Demo.open_empty Demo.background 5)
           eq_refl (fun w f => eq_refl)).
Defined.

(** An executor whose workers cannot be destroyed. *)
Notation stuck :=
  (constructed (O := nat) (factory := Demo.cannot_destroy)
     Demo.open_empty Demo.background (0 : nat) 2).

(** A [Teardown] that fails on the first [Destroy]. *)
Lemma Teardown_stops_on_sample :
  fst (Teardown (factory := Demo.cannot_destroy) stuck) =
    Return (Errorf "failed to destroy worker: %w"
              (Some (errors_New "worker is busy"))) /\
  pool.torn_down
    (workerPool (snd (Teardown (factory := Demo.cannot_destroy) stuck))) =
    pool.torn_down (workerPool stuck) /\
  exists calls,
    history (snd (Teardown (factory := Demo.cannot_destroy) stuck)) =
      history stuck ++
      calls ++ [ev_Destroy 0 (Some (errors_New "worker is busy"))] /\
    count is_PoolTeardown
      (calls ++ [ev_Destroy 0 (Some (errors_New "worker is busy"))]) = 0.
Proof.
  apply (Teardown_stops_at_failed_Destroy (factory := Demo.cannot_destroy) stuck).
  exists [ev_Get 0; ev_Destroy 0 (Some (errors_New "worker is busy"))].
  split; [reflexivity|]. right. left. reflexivity.
Defined.

(** A task that succeeds: worker 0 turns task 5 into output 5. *)
Lemma task_output_on_sample :
  outputChannel (snd (task 5 0 lent)) = outputChannel lent ++ [5] /\
  errorChannel (snd (task 5 0 lent)) = errorChannel lent /\
  exists rest,
    history (snd (task 5 0 lent)) =
      history lent ++
      ev_Execute 0 5 5 None :: ev_send_output 5 ::
      ev_Put 0 (fst (pool.Put 0 (workerPool lent))) :: rest /\
    count is_send_error
      (ev_Execute 0 5 5 None :: ev_send_output 5 ::
       ev_Put 0 (fst (pool.Put 0 (workerPool lent))) :: rest) = 0 /\
    (fst (pool.Put 0 (workerPool lent)) = None ->
     fst (task 5 0 lent) = Return tt /\
     pool.items (workerPool (snd (task 5 0 lent))) =
       pool.items (workerPool lent) ++ [0]).
Proof.
  apply (task_output_goes_to_output_stream 5 0 lent 5). reflexivity.
Defined.

(** A run in which a task is started on each of two workers, the first task
    runs to its end, and the caller then tears down. *)
Notation busy_run :=
  [act_Run; env_close;
   act_select case_input; act_dispatch;
   act_select case_input; act_dispatch;
   act_task 0; act_task 0; act_Teardown].

Lemma workers_conserved_on_sample :
  exists s',
    run busy_run (start (sample Demo.open_empty Demo.background 2)) = Some s' /\
    whereabouts s' = [] ++ [1] ++ [0] /\
    Permutation
      (whereabouts (start (sample Demo.open_empty Demo.background 2)))
      (whereabouts s') /\
    (NoDup (whereabouts (start (sample Demo.open_empty Demo.background 2))) ->
     NoDup (held s') /\
     forall w, In w (held s') ->
       ~ In w (pool.items (workerPool (exec s'))) /\
       ~ In w (destroyed (history (exec s')))).
Proof.
  eexists. split; [cbv; reflexivity|]. split; [reflexivity|].
  apply (workers_are_conserved busy_run). reflexivity.
Defined.

(** A run in which the loop starts a task and the task calls [Execute]. *)
Notation one_task_run :=
  [act_Run; env_close; act_select case_input; act_dispatch; act_task 0].

Lemma only_zero_on_sample :
  exists s,
    run one_task_run (start (sample Demo.open_empty Demo.background 1)) = Some s /\
    executed (history (exec s)) = [0] /\
    Forall (fun msg => msg = zero) (executed (history (exec s))) /\
    Forall (fun t => task_msg t = zero) (goroutines (exec s)).
Proof.
  eexists. split; [cbv; reflexivity|]. split; [reflexivity|].
  apply (only_the_zero_task_is_executed (factory := Demo.steady)
           Demo.open_empty (@nil nat) [] Demo.background (0 : nat) 1
           (sample Demo.open_empty Demo.background 1) one_task_run);
    reflexivity.
Defined.


(** A run in which a task fails and the context is then cancelled: two errors
    are sent, one of them for the [Execute] call. *)
Notation failing_run :=
  [act_Run; env_close; act_select case_input; act_dispatch; act_task 0;
   env_cancel (errors_New "context canceled"); act_select case_Done].


(** Three iterations on a closed channel and two workers: two tasks are
    started and the third iteration blocks. *)
Lemma Run_loop_on_closed_sample :
  fst (Run_loop (repeat case_input 3)
         (sample Demo.closed_empty Demo.background 2)) = Blocked /\
  goroutines (snd (Run_loop (repeat case_input 3)
                     (sample Demo.closed_empty Demo.background 2))) =
    goroutines (sample Demo.closed_empty Demo.background 2) ++
    zero_tasks [0; 1] /\
  pool.items (workerPool (snd (Run_loop (repeat case_input 3)
                                 (sample Demo.closed_empty Demo.background 2))))
    = [] /\
  inputChannel (snd (Run_loop (repeat case_input 3)
                       (sample Demo.closed_empty Demo.background 2))) =
    inputChannel (sample Demo.closed_empty Demo.background 2) /\
  count is_PoolTeardown
    (history (snd (Run_loop (repeat case_input 3)
                     (sample Demo.closed_empty Demo.background 2)))) =
    count is_PoolTeardown
      (history (sample Demo.closed_empty Demo.background 2)) /\
  destroyed
    (history (snd (Run_loop (repeat case_input 3)
                     (sample Demo.closed_empty Demo.background 2)))) =
    destroyed (history (sample Demo.closed_empty Demo.background 2)).
Proof.
  exact (Run_loop_on_closed_input 3
           (sample Demo.closed_empty Demo.background 2) eq_refl eq_refl).
Defined.

(** Task 5 is received and lost. *)
Lemma received_task_on_sample :
  exists terr,
    fst (Run_loop [case_input; case_input]
           (sample {| queue := [5]; closed := false |} Demo.background 1)) =
      match terr with
      | Some _ => Panic (Errorf "failed to teardown executor: %w" terr)
      | None => Return loop_return
      end /\
    snd (Run_loop [case_input; case_input]
           (sample {| queue := [5]; closed := false |} Demo.background 1)) =
      snd (Teardown
             (log (ev_receive 5 true)
                (set_inputChannel
                   {| queue := [];
                      closed := closed
                        (inputChannel
                           (sample {| queue := [5]; closed := false |}
                              Demo.background 1)) |}
                   (sample {| queue := [5]; closed := false |}
                      Demo.background 1)))) /\
    queue (inputChannel
             (snd (Run_loop [case_input; case_input]
                     (sample {| queue := [5]; closed := false |}
                        Demo.background 1)))) = [] /\
    goroutines (snd (Run_loop [case_input; case_input]
                       (sample {| queue := [5]; closed := false |}
                          Demo.background 1))) =
      goroutines (sample {| queue := [5]; closed := false |} Demo.background 1) /\
    executed (history (snd (Run_loop [case_input; case_input]
                              (sample {| queue := [5]; closed := false |}
                                 Demo.background 1)))) =
      executed (history (sample {| queue := [5]; closed := false |}
                           Demo.background 1)) /\
    outputChannel (snd (Run_loop [case_input; case_input]
                          (sample {| queue := [5]; closed := false |}
                             Demo.background 1))) =
      outputChannel (sample {| queue := [5]; closed := false |}
                       Demo.background 1) /\
    errorChannel (snd (Run_loop [case_input; case_input]
                         (sample {| queue := [5]; closed := false |}
                            Demo.background 1))) =
      errorChannel (sample {| queue := [5]; closed := false |}
                      Demo.background 1).
Proof.
  apply (received_task_ends_the_loop
           (sample {| queue := [5]; closed := false |} Demo.background 1)
           5 [] [case_input]).
  reflexivity.
Defined.
